(** * ImagePreview: the transform and gesture engine of src/image/src/ImagePreview.tsx

    A shallow embedding of the closure state of the [setup] function of the
    ImagePreview component (the [let] variables [offsetX], [scale],
    [scaleExp], [rotate], ... and the handlers that mutate them) and of the
    part of the DOM those handlers read and write.

    Numbers.  A JavaScript number is modelled as an exact rational, or one of
    the three special values Infinity, -Infinity and NaN, which the code can
    produce by dividing by [innerHeight - BLEEDING] when that is zero.
    Rounding of finite doubles, overflow and the sign of zero are not
    modelled: finite arithmetic is exact.  [scaleExp] only ever holds an
    integer or a special value, and [rotate] an integer.  Offsets and
    pointer positions come from finite inputs by finite arithmetic and are
    rationals.

    The DOM.  The handlers read the window size, the natural size of the
    image and its bounding box; the box is whatever the render layer makes
    of the style the handlers wrote last, so it enters as a function of
    that style. *)

From Stdlib Require Import QArith Qminmax Qpower ZArith List Bool String Lia Lqa.
Import ListNotations.

Local Open Scope Q_scope.

(** ** JavaScript numbers *)

Module Js.

Inductive ext (A : Type) : Type :=
| Fin (x : A)
| PosInf
| NegInf
| NaN.

Arguments Fin {A} x.
Arguments PosInf {A}.
Arguments NegInf {A}.
Arguments NaN {A}.

(** A number, and a number that is an integer whenever it is finite. *)
Definition number : Type := ext Q.
Definition integer : Type := ext Z.

Definition Qlt_bool (x y : Q) : bool := negb (Qle_bool y x).

(** The sign of the finite number [q] put on an infinity. *)
Definition signed_inf (q : Q) : number :=
  if Qlt_bool 0 q then PosInf else if Qlt_bool q 0 then NegInf else NaN.

Definition neg (a : number) : number :=
  match a with
  | Fin x => Fin (- x)
  | PosInf => NegInf
  | NegInf => PosInf
  | NaN => NaN
  end.

Definition add (a b : number) : number :=
  match a, b with
  | NaN, _ | _, NaN => NaN
  | Fin x, Fin y => Fin (x + y)
  | PosInf, NegInf | NegInf, PosInf => NaN
  | PosInf, _ | _, PosInf => PosInf
  | NegInf, _ | _, NegInf => NegInf
  end.

Definition sub (a b : number) : number := add a (neg b).

Definition mul (a b : number) : number :=
  match a, b with
  | NaN, _ | _, NaN => NaN
  | Fin x, Fin y => Fin (x * y)
  | Fin x, PosInf | PosInf, Fin x => signed_inf x
  | Fin x, NegInf | NegInf, Fin x => signed_inf (- x)
  | PosInf, PosInf | NegInf, NegInf => PosInf
  | PosInf, NegInf | NegInf, PosInf => NegInf
  end.

(** [a / b]: a finite number over zero is an infinity of its sign, and
    [0 / 0] is NaN. *)
Definition div (a b : number) : number :=
  match a, b with
  | NaN, _ | _, NaN => NaN
  | Fin x, Fin y => if Qeq_bool y 0 then signed_inf x else Fin (x / y)
  | Fin _, _ => Fin 0
  | PosInf, Fin y => if Qlt_bool y 0 then NegInf else PosInf
  | NegInf, Fin y => if Qlt_bool y 0 then PosInf else NegInf
  | _, _ => NaN
  end.

(** [a < b]; every comparison with NaN is false. *)
Definition ltb (a b : number) : bool :=
  match a, b with
  | NaN, _ | _, NaN => false
  | Fin x, Fin y => Qlt_bool x y
  | _, NegInf => false
  | NegInf, _ => true
  | PosInf, _ => false
  | Fin _, PosInf => true
  end.

Definition gtb (a b : number) : bool := ltb b a.

(** [a === b]. *)
Definition eqb (a b : number) : bool :=
  match a, b with
  | Fin x, Fin y => Qeq_bool x y
  | PosInf, PosInf | NegInf, NegInf => true
  | _, _ => false
  end.

(** [Math.max(a, b)] and [Math.min(a, b)]: NaN when an argument is. *)
Definition max (a b : number) : number :=
  match a, b with
  | NaN, _ | _, NaN => NaN
  | Fin x, Fin y => Fin (Qmax x y)
  | PosInf, _ | _, PosInf => PosInf
  | NegInf, c | c, NegInf => c
  end.

Definition min (a b : number) : number :=
  match a, b with
  | NaN, _ | _, NaN => NaN
  | Fin x, Fin y => Fin (Qmin x y)
  | NegInf, _ | _, NegInf => NegInf
  | PosInf, c | c, PosInf => c
  end.

(** [Math.max(a, b, c)]. *)
Definition max3 (a b c : number) : number := max (max a b) c.

(** [e + 1] and [e - 1] on an integer-valued number. *)
Definition succ (e : integer) : integer :=
  match e with Fin z => Fin (z + 1)%Z | PosInf => PosInf | NegInf => NegInf | NaN => NaN end.

Definition pred (e : integer) : integer :=
  match e with Fin z => Fin (z - 1)%Z | PosInf => PosInf | NegInf => NegInf | NaN => NaN end.

(** [b ** e] for a finite base [b > 1] and an integer-valued exponent. *)
Definition pow (b : Q) (e : integer) : number :=
  match e with
  | Fin z => Fin (b ^ z)
  | PosInf => PosInf
  | NegInf => Fin 0
  | NaN => NaN
  end.

(** The least [n >= n0] with [q <= b^n], where [p = b^n0], looking at most
    [fuel] steps up. *)
Fixpoint search_up (fuel : nat) (b q p : Q) (n0 : Z) : Z :=
  match fuel with
  | O => n0
  | S fuel' =>
      if Qle_bool q p then n0 else search_up fuel' b q (p * b) (n0 + 1)%Z
  end.

(** The least [n <= n0] with [q <= b^n], where [p = b^n0] and [q <= p],
    looking at most [fuel] steps down. *)
Fixpoint search_down (fuel : nat) (b q p : Q) (n0 : Z) : Z :=
  match fuel with
  | O => n0
  | S fuel' =>
      if Qle_bool q (p / b) then search_down fuel' b q (p / b) (n0 - 1)%Z else n0
  end.

(** Enough steps for [search_up] and [search_down] with a base [b >= 3/2]:
    [b^(2k) >= 2^k]. *)
Definition log_fuel (q : Q) : nat :=
  Z.to_nat (2 * (Z.log2_up (Z.abs (Qnum q)) + Z.log2_up (Zpos (Qden q)) + 1)).

(** [Math.ceil(Math.log(a) / Math.log(b))] for a base [b > 1], as exact
    mathematics: the least integer [n] with [a <= b^n]. *)
Definition ceil_log (b : Q) (a : number) : integer :=
  match a with
  | Fin q =>
      if Qlt_bool 0 q then
        Fin (if Qle_bool q 1
             then search_down (log_fuel q) b q 1 0
             else search_up (log_fuel q) b q 1 0)
      else if Qeq_bool q 0 then NegInf
      else NaN
  | PosInf => PosInf
  | NegInf => NaN
  | NaN => NaN
  end.

(** The same value, reading rationals up to [==]. *)
Definition same (a b : number) : Prop :=
  match a, b with
  | Fin x, Fin y => x == y
  | PosInf, PosInf | NegInf, NegInf | NaN, NaN => True
  | _, _ => False
  end.

Definition finite (a : number) : Prop :=
  match a with Fin _ => True | _ => False end.

End Js.

Import Js.

(** ** Constants *)

Definition BLEEDING : Q := 32.
Definition scaleRadix : Q := 3 # 2.

(** ** The DOM as the component sees it *)

(** The fields of [DOMRect] that [getDerivedOffset] reads. *)
Record DOMRect : Type := {
  left : Q;
  top : Q;
  right : Q;
  bottom : Q;
  width : Q;
  height : Q
}.

Inductive Cursor : Type := grab | grabbing.

(** What [derivePreviewStyle] writes to [style.cssText]: the transform
    [translateX(offsetX) translateY(offsetY) rotate(rotate) scale(scale)],
    the cursor and whether [transition: none] is set. *)
Record PreviewStyle : Type := {
  translateX : Q;
  translateY : Q;
  rotateDeg : Z;
  scaleFactor : number;
  cursor : Cursor;
  transitionNone : bool
}.

(** The preview [<img>]: its natural size, and its box on screen as a
    function of the style it currently carries ([None] before the first
    [derivePreviewStyle]).  The layout is the render layer's and is left
    arbitrary. *)
Record PreviewEl : Type := {
  naturalWidth : Q;
  naturalHeight : Q;
  getBoundingClientRect : option PreviewStyle -> DOMRect
}.

(** [window.innerWidth], [window.innerHeight] and [previewRef.value]. *)
Record Dom : Type := {
  innerWidth : Q;
  innerHeight : Q;
  previewRef : option PreviewEl
}.

Record MouseEvent : Type := {
  button : Z;
  clientX : Q;
  clientY : Q
}.

(** The props the handlers read: [show], and which hooks were passed.  The
    hooks and the style of [imageContext.previewedImgPropsRef], which the
    handlers pass through without reading a result, are left out. *)
Record Props : Type := {
  show : option bool;
  onPrev : bool;
  onNext : bool;
  onClose : bool;
  onUpdateShow : bool;
  onUpdate_show : bool
}.

(** Calls that leave the component, in the order they are made. *)
Inductive Call : Type :=
| call_onPrev
| call_onNext
| call_onClose
| call_onUpdateShow (value : bool)
| call_onUpdate_show (value : bool)
| call_preventDefault.

(** ** interface.ts: MoveStrategy *)

Inductive VerticalDirection : Type := verticalTop | verticalBottom.
Inductive HorizontalDirection : Type := horizontalLeft | horizontalRight.

Record MoveStrategy : Type := {
  moveVerticalDirection : VerticalDirection;
  moveHorizontalDirection : HorizontalDirection;
  deltaHorizontal : Q;
  deltaVertical : Q
}.

(** ** The closure state of [setup] *)

Record State : Type := {
  startX : Q;
  startY : Q;
  offsetX : Q;
  offsetY : Q;
  startOffsetX : Q;
  startOffsetY : Q;
  mouseDownClientX : Q;
  mouseDownClientY : Q;
  dragging : bool;
  scaleExp : integer;
  scale : number;
  rotate : Z;
  (** [preview.style.cssText] *)
  cssText : option PreviewStyle;
  (** a [beforeNextFrameOnce(derivePreviewStyle)] is pending *)
  frameRequested : bool;
  (** [handleMouseMove] and [handleMouseUp] are registered on [document] *)
  listening : bool;
  uncontrolledShow : bool;
  displayed : bool;
  calls : list Call
}.

Definition initial (defaultShow : bool) : State :=
  {| startX := 0; startY := 0; offsetX := 0; offsetY := 0;
     startOffsetX := 0; startOffsetY := 0;
     mouseDownClientX := 0; mouseDownClientY := 0;
     dragging := false;
     scaleExp := Fin 0%Z; scale := Fin 1; rotate := 0%Z;
     cssText := None; frameRequested := false; listening := false;
     uncontrolledShow := defaultShow; displayed := false; calls := [] |}.

Section Setters.

Variable s : State.

Definition set_start (x y : Q) : State :=
  {| startX := x; startY := y; offsetX := offsetX s; offsetY := offsetY s;
     startOffsetX := startOffsetX s; startOffsetY := startOffsetY s;
     mouseDownClientX := mouseDownClientX s; mouseDownClientY := mouseDownClientY s;
     dragging := dragging s; scaleExp := scaleExp s; scale := scale s;
     rotate := rotate s; cssText := cssText s; frameRequested := frameRequested s;
     listening := listening s; uncontrolledShow := uncontrolledShow s;
     displayed := displayed s; calls := calls s |}.

Definition set_offset (x y : Q) : State :=
  {| startX := startX s; startY := startY s; offsetX := x; offsetY := y;
     startOffsetX := startOffsetX s; startOffsetY := startOffsetY s;
     mouseDownClientX := mouseDownClientX s; mouseDownClientY := mouseDownClientY s;
     dragging := dragging s; scaleExp := scaleExp s; scale := scale s;
     rotate := rotate s; cssText := cssText s; frameRequested := frameRequested s;
     listening := listening s; uncontrolledShow := uncontrolledShow s;
     displayed := displayed s; calls := calls s |}.

Definition set_startOffset (x y : Q) : State :=
  {| startX := startX s; startY := startY s; offsetX := offsetX s; offsetY := offsetY s;
     startOffsetX := x; startOffsetY := y;
     mouseDownClientX := mouseDownClientX s; mouseDownClientY := mouseDownClientY s;
     dragging := dragging s; scaleExp := scaleExp s; scale := scale s;
     rotate := rotate s; cssText := cssText s; frameRequested := frameRequested s;
     listening := listening s; uncontrolledShow := uncontrolledShow s;
     displayed := displayed s; calls := calls s |}.

Definition set_mouseDownClient (x y : Q) : State :=
  {| startX := startX s; startY := startY s; offsetX := offsetX s; offsetY := offsetY s;
     startOffsetX := startOffsetX s; startOffsetY := startOffsetY s;
     mouseDownClientX := x; mouseDownClientY := y;
     dragging := dragging s; scaleExp := scaleExp s; scale := scale s;
     rotate := rotate s; cssText := cssText s; frameRequested := frameRequested s;
     listening := listening s; uncontrolledShow := uncontrolledShow s;
     displayed := displayed s; calls := calls s |}.

Definition set_dragging (b : bool) : State :=
  {| startX := startX s; startY := startY s; offsetX := offsetX s; offsetY := offsetY s;
     startOffsetX := startOffsetX s; startOffsetY := startOffsetY s;
     mouseDownClientX := mouseDownClientX s; mouseDownClientY := mouseDownClientY s;
     dragging := b; scaleExp := scaleExp s; scale := scale s;
     rotate := rotate s; cssText := cssText s; frameRequested := frameRequested s;
     listening := listening s; uncontrolledShow := uncontrolledShow s;
     displayed := displayed s; calls := calls s |}.

Definition set_scaleExp (e : integer) : State :=
  {| startX := startX s; startY := startY s; offsetX := offsetX s; offsetY := offsetY s;
     startOffsetX := startOffsetX s; startOffsetY := startOffsetY s;
     mouseDownClientX := mouseDownClientX s; mouseDownClientY := mouseDownClientY s;
     dragging := dragging s; scaleExp := e; scale := scale s;
     rotate := rotate s; cssText := cssText s; frameRequested := frameRequested s;
     listening := listening s; uncontrolledShow := uncontrolledShow s;
     displayed := displayed s; calls := calls s |}.

Definition set_scale (a : number) : State :=
  {| startX := startX s; startY := startY s; offsetX := offsetX s; offsetY := offsetY s;
     startOffsetX := startOffsetX s; startOffsetY := startOffsetY s;
     mouseDownClientX := mouseDownClientX s; mouseDownClientY := mouseDownClientY s;
     dragging := dragging s; scaleExp := scaleExp s; scale := a;
     rotate := rotate s; cssText := cssText s; frameRequested := frameRequested s;
     listening := listening s; uncontrolledShow := uncontrolledShow s;
     displayed := displayed s; calls := calls s |}.

Definition set_rotate (r : Z) : State :=
  {| startX := startX s; startY := startY s; offsetX := offsetX s; offsetY := offsetY s;
     startOffsetX := startOffsetX s; startOffsetY := startOffsetY s;
     mouseDownClientX := mouseDownClientX s; mouseDownClientY := mouseDownClientY s;
     dragging := dragging s; scaleExp := scaleExp s; scale := scale s;
     rotate := r; cssText := cssText s; frameRequested := frameRequested s;
     listening := listening s; uncontrolledShow := uncontrolledShow s;
     displayed := displayed s; calls := calls s |}.

Definition set_cssText (c : option PreviewStyle) : State :=
  {| startX := startX s; startY := startY s; offsetX := offsetX s; offsetY := offsetY s;
     startOffsetX := startOffsetX s; startOffsetY := startOffsetY s;
     mouseDownClientX := mouseDownClientX s; mouseDownClientY := mouseDownClientY s;
     dragging := dragging s; scaleExp := scaleExp s; scale := scale s;
     rotate := rotate s; cssText := c; frameRequested := frameRequested s;
     listening := listening s; uncontrolledShow := uncontrolledShow s;
     displayed := displayed s; calls := calls s |}.

Definition set_frameRequested (b : bool) : State :=
  {| startX := startX s; startY := startY s; offsetX := offsetX s; offsetY := offsetY s;
     startOffsetX := startOffsetX s; startOffsetY := startOffsetY s;
     mouseDownClientX := mouseDownClientX s; mouseDownClientY := mouseDownClientY s;
     dragging := dragging s; scaleExp := scaleExp s; scale := scale s;
     rotate := rotate s; cssText := cssText s; frameRequested := b;
     listening := listening s; uncontrolledShow := uncontrolledShow s;
     displayed := displayed s; calls := calls s |}.

Definition set_listening (b : bool) : State :=
  {| startX := startX s; startY := startY s; offsetX := offsetX s; offsetY := offsetY s;
     startOffsetX := startOffsetX s; startOffsetY := startOffsetY s;
     mouseDownClientX := mouseDownClientX s; mouseDownClientY := mouseDownClientY s;
     dragging := dragging s; scaleExp := scaleExp s; scale := scale s;
     rotate := rotate s; cssText := cssText s; frameRequested := frameRequested s;
     listening := b; uncontrolledShow := uncontrolledShow s;
     displayed := displayed s; calls := calls s |}.

Definition set_uncontrolledShow (b : bool) : State :=
  {| startX := startX s; startY := startY s; offsetX := offsetX s; offsetY := offsetY s;
     startOffsetX := startOffsetX s; startOffsetY := startOffsetY s;
     mouseDownClientX := mouseDownClientX s; mouseDownClientY := mouseDownClientY s;
     dragging := dragging s; scaleExp := scaleExp s; scale := scale s;
     rotate := rotate s; cssText := cssText s; frameRequested := frameRequested s;
     listening := listening s; uncontrolledShow := b;
     displayed := displayed s; calls := calls s |}.

Definition set_displayed (b : bool) : State :=
  {| startX := startX s; startY := startY s; offsetX := offsetX s; offsetY := offsetY s;
     startOffsetX := startOffsetX s; startOffsetY := startOffsetY s;
     mouseDownClientX := mouseDownClientX s; mouseDownClientY := mouseDownClientY s;
     dragging := dragging s; scaleExp := scaleExp s; scale := scale s;
     rotate := rotate s; cssText := cssText s; frameRequested := frameRequested s;
     listening := listening s; uncontrolledShow := uncontrolledShow s;
     displayed := b; calls := calls s |}.

(** Record the call [c] after those already made. *)
Definition emit (c : Call) : State :=
  {| startX := startX s; startY := startY s; offsetX := offsetX s; offsetY := offsetY s;
     startOffsetX := startOffsetX s; startOffsetY := startOffsetY s;
     mouseDownClientX := mouseDownClientX s; mouseDownClientY := mouseDownClientY s;
     dragging := dragging s; scaleExp := scaleExp s; scale := scale s;
     rotate := rotate s; cssText := cssText s; frameRequested := frameRequested s;
     listening := listening s; uncontrolledShow := uncontrolledShow s;
     displayed := displayed s; calls := calls s ++ [c] |}.

End Setters.

(** [f?.()]: call the hook when it was passed. *)
Definition emit_if (present : bool) (c : Call) (s : State) : State :=
  if present then emit s c else s.

(** ** The handlers *)

Section Handlers.

(** The DOM and the props are read, never written, by the handlers. *)
Variable dom : Dom.
Variable props : Props.

(** [useMergedState(controlledShowRef, uncontrolledShowRef)] *)
Definition mergedShow (s : State) : bool :=
  match show props with
  | Some v => v
  | None => uncontrolledShow s
  end.

Definition doUpdateShow (value : bool) (s : State) : State :=
  let s := emit_if (onUpdateShow props) (call_onUpdateShow value) s in
  let s := emit_if (onUpdate_show props) (call_onUpdate_show value) s in
  let s := set_uncontrolledShow s value in
  set_displayed s true.

Definition derivePreviewStyle (transition : bool) (s : State) : State :=
  match previewRef dom with
  | None => s
  | Some _ =>
      set_cssText s
        (Some {| translateX := offsetX s;
                 translateY := offsetY s;
                 rotateDeg := rotate s;
                 scaleFactor := scale s;
                 cursor := if dragging s then grabbing else grab;
                 transitionNone :=
                   if dragging s then true else negb transition |})
  end.

Definition handleMouseMove (e : MouseEvent) (s : State) : State :=
  let s := set_offset s (clientX e - startX s) (offsetY s) in
  let s := set_offset s (offsetX s) (clientY e - startY s) in
  set_frameRequested s true.

(** The callback [beforeNextFrameOnce] scheduled, run by the next frame. *)
Definition handleFrame (s : State) : State :=
  if frameRequested s
  then derivePreviewStyle true (set_frameRequested s false)
  else s.

Definition getMoveStrategy
  (mouseUpClientX mouseUpClientY mouseDownClientX mouseDownClientY : Q)
  : MoveStrategy :=
  let deltaHorizontal := mouseDownClientX - mouseUpClientX in
  let deltaVertical := mouseDownClientY - mouseUpClientY in
  {| moveVerticalDirection :=
       if Qlt_bool 0 deltaVertical then verticalTop else verticalBottom;
     moveHorizontalDirection :=
       if Qlt_bool 0 deltaHorizontal then horizontalLeft else horizontalRight;
     deltaHorizontal := deltaHorizontal;
     deltaVertical := deltaVertical |}.

(** [x ?? d] *)
Definition nullish (x : option Q) (d : Q) : Q :=
  match x with Some v => v | None => d end.

(** [d === 'horizontalRight'] and [d === 'verticalBottom'], where [d] is
    [undefined] when no strategy was passed. *)
Definition is_horizontalRight (d : option HorizontalDirection) : bool :=
  match d with Some horizontalRight => true | _ => false end.

Definition is_verticalBottom (d : option VerticalDirection) : bool :=
  match d with Some verticalBottom => true | _ => false end.

Record Offset : Type := { nextOffsetX : Q; nextOffsetY : Q }.

(** avoid image move outside viewport *)
Definition getDerivedOffset (moveStrategy : option MoveStrategy) (s : State)
  : Offset :=
  match previewRef dom with
  | None => {| nextOffsetX := 0; nextOffsetY := 0 |}
  | Some preview =>
      let pbox := getBoundingClientRect preview (cssText s) in
      let moveVerticalDirection := option_map moveVerticalDirection moveStrategy in
      let moveHorizontalDirection := option_map moveHorizontalDirection moveStrategy in
      let deltaHorizontal := option_map deltaHorizontal moveStrategy in
      let deltaVertical := option_map deltaVertical moveStrategy in
      {| nextOffsetX :=
           if Qle_bool (width pbox) (innerWidth dom) then 0
           else if Qlt_bool 0 (left pbox) then
             (width pbox - innerWidth dom) / 2
           else if Qlt_bool (right pbox) (innerWidth dom) then
             - (width pbox - innerWidth dom) / 2
           else if is_horizontalRight moveHorizontalDirection then
             Qmin ((width pbox - innerWidth dom) / 2)
                  (startOffsetX s - nullish deltaHorizontal 0)
           else
             Qmax (- ((width pbox - innerWidth dom) / 2))
                  (startOffsetX s - nullish deltaHorizontal 0);
         nextOffsetY :=
           if Qle_bool (height pbox) (innerHeight dom) then 0
           else if Qlt_bool 0 (top pbox) then
             (height pbox - innerHeight dom) / 2
           else if Qlt_bool (bottom pbox) (innerHeight dom) then
             - (height pbox - innerHeight dom) / 2
           else if is_verticalBottom moveVerticalDirection then
             Qmin ((height pbox - innerHeight dom) / 2)
                  (startOffsetY s - nullish deltaVertical 0)
           else
             Qmax (- ((height pbox - innerHeight dom) / 2))
                  (startOffsetY s - nullish deltaVertical 0) |}
  end.

Definition handleMouseUp (e : MouseEvent) (s : State) : State :=
  let s := set_listening s false in
  let mouseUpClientX := clientX e in
  let mouseUpClientY := clientY e in
  let s := set_dragging s false in
  let moveStrategy :=
    getMoveStrategy mouseUpClientX mouseUpClientY
      (mouseDownClientX s) (mouseDownClientY s) in
  let offset := getDerivedOffset (Some moveStrategy) s in
  let s := set_offset s (nextOffsetX offset) (offsetY s) in
  let s := set_offset s (offsetX s) (nextOffsetY offset) in
  derivePreviewStyle true s.

Definition handlePreviewMousedown (e : MouseEvent) (s : State) : State :=
  if negb (button e =? 0)%Z then s
  else
    let s := set_dragging s true in
    let s := set_start s (clientX e - offsetX s) (startY s) in
    let s := set_start s (startX s) (clientY e - offsetY s) in
    let s := set_startOffset s (offsetX s) (startOffsetY s) in
    let s := set_startOffset s (startOffsetX s) (offsetY s) in
    let s := set_mouseDownClient s (clientX e) (mouseDownClientY s) in
    let s := set_mouseDownClient s (mouseDownClientX s) (clientY e) in
    let s := derivePreviewStyle true s in
    set_listening s true.

Definition getMaxScale : number :=
  match previewRef dom with
  | None => Fin 1
  | Some preview =>
      let heightMaxScale :=
        max (Fin 1)
            (div (Fin (naturalHeight preview))
                 (sub (Fin (innerHeight dom)) (Fin BLEEDING))) in
      let widthMaxScale :=
        max (Fin 1)
            (div (Fin (naturalWidth preview))
                 (sub (Fin (innerWidth dom)) (Fin BLEEDING))) in
      max3 (Fin 3) (mul heightMaxScale (Fin 2)) (mul widthMaxScale (Fin 2))
  end.

Definition getOrignalImageSizeScale : number :=
  match previewRef dom with
  | None => Fin 1
  | Some preview =>
      let heightScale :=
        div (Fin (naturalHeight preview))
            (sub (Fin (innerHeight dom)) (Fin BLEEDING)) in
      let widthScale :=
        div (Fin (naturalWidth preview))
            (sub (Fin (innerWidth dom)) (Fin BLEEDING)) in
      if ltb heightScale (Fin 1) && ltb widthScale (Fin 1) then Fin 1
      else max heightScale widthScale
  end.

Definition handlePreviewDblclick (s : State) : State :=
  let originalImageSizeScale := getOrignalImageSizeScale in
  let s :=
    set_scale s
      (if eqb (scale s) originalImageSizeScale
       then Fin 1 else originalImageSizeScale) in
  derivePreviewStyle true s.

Definition resetScale (s : State) : State :=
  let s := set_scale s (Fin 1) in
  set_scaleExp s (Fin 0%Z).

Definition handleSwitchPrev (s : State) : State :=
  let s := resetScale s in
  let s := set_rotate s 0%Z in
  emit_if (onPrev props) call_onPrev s.

Definition handleSwitchNext (s : State) : State :=
  let s := resetScale s in
  let s := set_rotate s 0%Z in
  emit_if (onNext props) call_onNext s.

Definition rotateCounterclockwise (s : State) : State :=
  let s := set_rotate s (rotate s - 90)%Z in
  derivePreviewStyle true s.

Definition rotateClockwise (s : State) : State :=
  let s := set_rotate s (rotate s + 90)%Z in
  derivePreviewStyle true s.

Definition zoomIn (s : State) : State :=
  let maxScale := getMaxScale in
  if ltb (scale s) maxScale then
    let s := set_scaleExp s (succ (scaleExp s)) in
    let s := set_scale s (min maxScale (pow scaleRadix (scaleExp s))) in
    derivePreviewStyle true s
  else s.

Definition zoomOut (s : State) : State :=
  if gtb (scale s) (Fin (1 # 2)) then
    let originalScale := scale s in
    let s := set_scaleExp s (pred (scaleExp s)) in
    let s := set_scale s (max (Fin (1 # 2)) (pow scaleRadix (scaleExp s))) in
    let diff := sub originalScale (scale s) in
    let s := derivePreviewStyle false s in
    let offset := getDerivedOffset None s in
    let s := set_scale s (add (scale s) diff) in
    let s := derivePreviewStyle false s in
    let s := set_scale s (sub (scale s) diff) in
    let s := set_offset s (nextOffsetX offset) (offsetY s) in
    let s := set_offset s (offsetX s) (nextOffsetY offset) in
    derivePreviewStyle true s
  else s.

Definition close (s : State) : State :=
  if mergedShow s then
    let s := emit_if (onClose props) call_onClose s in
    let s := doUpdateShow false s in
    set_uncontrolledShow s false
  else s.

Definition resizeToOrignalImageSize (s : State) : State :=
  let s := set_scale s getOrignalImageSizeScale in
  let s := set_scaleExp s (ceil_log scaleRadix (scale s)) in
  let s := set_offset s 0 (offsetY s) in
  let s := set_offset s (offsetX s) 0 in
  derivePreviewStyle true s.

Definition handleAfterLeave (s : State) : State :=
  let s := resetScale s in
  let s := set_rotate s 0%Z in
  set_displayed s false.

(** The [switch] on [e.key]. *)
Definition handleKeydown (key : string) (s : State) : State :=
  if (key =? " ")%string then emit s call_preventDefault
  else if (key =? "ArrowLeft")%string then emit_if (onPrev props) call_onPrev s
  else if (key =? "ArrowRight")%string then emit_if (onNext props) call_onNext s
  else if (key =? "ArrowUp")%string then zoomIn (emit s call_preventDefault)
  else if (key =? "ArrowDown")%string then zoomOut (emit s call_preventDefault)
  else if (key =? "Escape")%string then close s
  else s.

(** ** What reaches the component *)

Inductive Action : Type :=
| Mousedown (e : MouseEvent)
| Mousemove (e : MouseEvent)
| Mouseup (e : MouseEvent)
| Frame
| Dblclick
| Keydown (key : string)
| ClickZoomIn
| ClickZoomOut
| ClickRotateCounterclockwise
| ClickRotateClockwise
| ClickResizeToOriginalSize
| ClickPrev
| ClickNext
| ClickClose
| AfterLeave.

(** The listeners on [document] run only while registered: mousemove and
    mouseup between [on] and [off], keydown while [mergedShow] holds.  (The
    watcher on [mergedShow] registers [handleKeydown] when it sees the value
    become true; a component mounted with the value already true gets its
    keys only after it was hidden and shown again, a delay [step] does not
    model.)  Every action of a [run] finds the same [dom]. *)
Definition step (a : Action) (s : State) : State :=
  match a with
  | Mousedown e => handlePreviewMousedown e s
  | Mousemove e => if listening s then handleMouseMove e s else s
  | Mouseup e => if listening s then handleMouseUp e s else s
  | Frame => handleFrame s
  | Dblclick => handlePreviewDblclick s
  | Keydown key => if mergedShow s then handleKeydown key s else s
  | ClickZoomIn => zoomIn s
  | ClickZoomOut => zoomOut s
  | ClickRotateCounterclockwise => rotateCounterclockwise s
  | ClickRotateClockwise => rotateClockwise s
  | ClickResizeToOriginalSize => resizeToOrignalImageSize s
  | ClickPrev => handleSwitchPrev s
  | ClickNext => handleSwitchNext s
  | ClickClose => close s
  | AfterLeave => handleAfterLeave s
  end.

Definition run (l : list Action) (s : State) : State :=
  fold_left (fun s a => step a s) l s.

End Handlers.

(** ** Points inside handlers *)

(** The state in which [zoomOut] calls [getDerivedOffset]: the exponent is
    decremented, the candidate scale is set and has been written to the
    style without a transition. *)
Definition zoomOut_measuring (dom : Dom) (s : State) : State :=
  let s := set_scaleExp s (pred (scaleExp s)) in
  let s := set_scale s (max (Fin (1 # 2)) (pow scaleRadix (scaleExp s))) in
  derivePreviewStyle dom false s.

(** ** Drag sessions *)

(** The actions that leave a drag going and its offset alone or on the
    pointer: all but a mousedown, the mouseup, and the three that write
    [offsetX] and [offsetY] from elsewhere, which are [zoomOut] by its
    button or the ArrowDown key and [resizeToOrignalImageSize]. *)
Definition keeps_tracking (a : Action) : bool :=
  match a with
  | Mousedown _ | Mouseup _ => false
  | ClickZoomOut | ClickResizeToOriginalSize => false
  | Keydown key => negb (key =? "ArrowDown")%string
  | _ => true
  end.

(** Where the pointer is after the actions [l], having been at [p]. *)
Definition pointer_after (l : list Action) (p : Q * Q) : Q * Q :=
  fold_left
    (fun p a =>
       match a with
       | Mousemove e => (clientX e, clientY e)
       | _ => p
       end)
    l p.

(** What holds from the mousedown at [(downX, downY)], taken at offset
    [(fromX, fromY)], until the mouseup, with the pointer now at [p]. *)
Definition drag_tracks (downX downY fromX fromY : Q) (p : Q * Q) (s : State)
  : Prop :=
  listening s = true
  /\ dragging s = true
  /\ startX s == downX - fromX
  /\ startY s == downY - fromY
  /\ startOffsetX s = fromX
  /\ startOffsetY s = fromY
  /\ mouseDownClientX s = downX
  /\ mouseDownClientY s = downY
  /\ offsetX s == fst p - downX + fromX
  /\ offsetY s == snd p - downY + fromY.

(** ** Clamping, committing and clamping again *)

(** The box [b] moved by [(dx, dy)]. *)
Definition translate (dx dy : Q) (b : DOMRect) : DOMRect :=
  {| left := left b + dx; top := top b + dy;
     right := right b + dx; bottom := bottom b + dy;
     width := width b; height := height b |}.

(** The window in which the image is measured [(dx, dy)] further. *)
Definition remeasured (dx dy : Q) (dom : Dom) : Dom :=
  {| innerWidth := innerWidth dom;
     innerHeight := innerHeight dom;
     previewRef :=
       option_map
         (fun preview =>
            {| naturalWidth := naturalWidth preview;
               naturalHeight := naturalHeight preview;
               getBoundingClientRect :=
                 fun style => translate dx dy (getBoundingClientRect preview style) |})
         (previewRef dom) |}.

(** Clamp in [s], whose box was measured at the offset [s] holds; commit
    the result as [handleMouseUp] and [zoomOut] do; clamp again, with the
    same strategy, on the box moved by the correction. *)
Definition clamp_again (dom : Dom) (moveStrategy : option MoveStrategy)
  (s : State) : Offset :=
  let offset := getDerivedOffset dom moveStrategy s in
  let dx := nextOffsetX offset - offsetX s in
  let dy := nextOffsetY offset - offsetY s in
  let s := set_offset s (nextOffsetX offset) (offsetY s) in
  let s := set_offset s (offsetX s) (nextOffsetY offset) in
  getDerivedOffset (remeasured dx dy dom) moveStrategy s.

(** The right and bottom edges are where the size puts them. *)
Definition box_consistent (b : DOMRect) : Prop :=
  right b == left b + width b /\ bottom b == top b + height b.

(** The box is the one of an image that is centred in the window at offset
    (0, 0) and has been moved by [(x, y)]. *)
Definition centred_at (dom : Dom) (x y : Q) (b : DOMRect) : Prop :=
  left b == (innerWidth dom - width b) / 2 + x
  /\ top b == (innerHeight dom - height b) / 2 + y.

(** The offset [start] is one the clamp allows for a box larger than the
    viewport on the axis. *)
Definition within_limits (viewport size start : Q) : Prop :=
  viewport < size ->
  - ((size - viewport) / 2) <= start <= (size - viewport) / 2.

(** One axis of [getDerivedOffset], for a box from [lo] to [hi] of extent
    [size] in a viewport of extent [viewport]: [towards_end] says that the
    strategy is [horizontalRight] (or [verticalBottom]), and [target] is
    [startOffset - (delta ?? 0)]. *)
Definition clamp_axis (viewport lo hi size : Q) (towards_end : bool)
  (target : Q) : Q :=
  if Qle_bool size viewport then 0
  else if Qlt_bool 0 lo then (size - viewport) / 2
  else if Qlt_bool hi viewport then - (size - viewport) / 2
  else if towards_end then Qmin ((size - viewport) / 2) target
  else Qmax (- ((size - viewport) / 2)) target.

(** ** Conditions on the state *)

(** [scale] is a finite number, at least 0.5. *)
Definition scale_at_least_half (s : State) : Prop :=
  exists q : Q, scale s = Fin q /\ (1 # 2) <= q.

(** [scaleExp] is an integer. *)
Definition exponent_is_integer (s : State) : Prop :=
  exists e : Z, scaleExp s = Fin e.

(** The actions that reach [zoomIn]: its button and the ArrowUp key. *)
Definition zooms_in (a : Action) : bool :=
  match a with
  | ClickZoomIn => true
  | Keydown key => (key =? "ArrowUp")%string
  | _ => false
  end.

(** ** Conditions on the geometry *)

Definition viewport_exceeds_bleeding (dom : Dom) : Prop :=
  BLEEDING < innerWidth dom /\ BLEEDING < innerHeight dom.

Definition viewport_differs_from_bleeding (dom : Dom) : Prop :=
  ~ innerWidth dom == BLEEDING /\ ~ innerHeight dom == BLEEDING.

(** Written from the specification's words, for comparison with the code:
    a ratio whose denominator [viewport - BLEEDING] is clamped to a minimum
    of 1 before dividing. *)
Definition guarded_ratio (natural viewport : Q) : Q :=
  natural / Qmax 1 (viewport - BLEEDING).

(** ** Example data *)

(** A box given by its left and top edges and its size. *)
Definition box (l t w h : Q) : DOMRect :=
  {| left := l; top := t; right := l + w; bottom := t + h;
     width := w; height := h |}.

(** An image of natural size [nw] by [nh] whose box on screen is [b]
    whatever style it carries. *)
Definition still_image (nw nh : Q) (b : DOMRect) : PreviewEl :=
  {| naturalWidth := nw; naturalHeight := nh;
     getBoundingClientRect := fun _ => b |}.

Definition window_of (w h : Q) (preview : PreviewEl) : Dom :=
  {| innerWidth := w; innerHeight := h; previewRef := Some preview |}.

Definition all_hooks : Props :=
  {| show := None; onPrev := true; onNext := true; onClose := true;
     onUpdateShow := true; onUpdate_show := true |}.

(** A 1000 by 800 window showing a 2000 by 1600 image whose box is 1200 wide
    with its left edge at -150, and 1000 high with its top edge at -100: it
    spans the window on both axes. *)
Definition spanning_dom : Dom :=
  window_of 1000 800 (still_image 2000 1600 (box (-150) (-100) 1200 1000)).

(** The same window with a box that leaves a gap of 50 on the left and a gap
    of 500 at the bottom. *)
Definition gap_dom : Dom :=
  window_of 1000 800 (still_image 2000 1600 (box 50 (-700) 1200 1000)).

(** The strategy of the scenario: [horizontalRight] with a delta of 50.
    ([getMoveStrategy] itself pairs a positive delta with [horizontalLeft];
    [getDerivedOffset] takes any pair.) *)
Definition scenario_strategy : MoveStrategy :=
  {| moveVerticalDirection := verticalBottom;
     moveHorizontalDirection := horizontalRight;
     deltaHorizontal := 50;
     deltaVertical := -20 |}.

(** The open preview, untouched. *)
Definition opened : State := initial true.

(** A preview whose parent controls [show] and has set it to true, with
    every hook passed. *)
Definition shown_hooks : Props :=
  {| show := Some true; onPrev := true; onNext := true; onClose := true;
     onUpdateShow := true; onUpdate_show := true |}.

(** Its state once shown, mounted hidden: the watcher on [mergedShow] saw
    the value become true, ran [doUpdateShow(true)] and put [handleKeydown]
    on [document]. *)
Definition shown : State := doUpdateShow shown_hooks true (initial false).

(** A mouse event of the primary button with the pointer at [(x, y)]. *)
Definition pointer_at (x y : Q) : MouseEvent :=
  {| button := 0; clientX := x; clientY := y |}.

(** A window exactly [BLEEDING] high showing a 100 by 100 image. *)
Definition bleeding_dom : Dom :=
  window_of 1000 32 (still_image 100 100 (box 450 0 100 100)).

(** A window 16 high, less than [BLEEDING], showing a 100 by 100 image. *)
Definition low_dom : Dom :=
  window_of 1000 16 (still_image 100 100 (box 450 0 100 100)).

(** Zoom out to the floor, toggle to the original size, zoom out again,
    then zoom in. *)
Definition stale_exponent_run : list Action :=
  [ClickZoomOut; ClickZoomOut; Dblclick; ClickZoomOut; ClickZoomIn].

(** In [gap_dom] the box is the centred one moved by (150, -600).  The
    state at the end of a drag from offset (0, 0), pointer down at
    (300, 700), that reached that offset. *)
Definition dragged_into_gap : State :=
  set_mouseDownClient (set_offset opened 150 (-600)) 300 700.

(** ** Sessions over several images

    The hooks [onPrev] and [onNext] let the parent pass another [src]; the
    [<img>] is keyed by it, so the next action finds another element, of
    another natural size.  In a session every action comes with the
    document it leaves behind. *)

Definition session_step (props : Props) (ds : Dom * State)
  (ad : Action * Dom) : Dom * State :=
  (snd ad, step (fst ds) props (fst ad) (snd ds)).

Definition session (props : Props) (l : list (Action * Dom))
  (ds : Dom * State) : Dom * State :=
  fold_left (session_step props) l ds.

(** The session in which the document stays [dom]. *)
Definition on_one_image (dom : Dom) (l : list Action) : list (Action * Dom) :=
  map (fun a => (a, dom)) l.

(** The keys that call [onPrev] and [onNext]. *)
Definition switches_by_key (a : Action) : bool :=
  match a with
  | Keydown key => (key =? "ArrowLeft")%string || (key =? "ArrowRight")%string
  | _ => false
  end.

(** ** Further conditions and example data *)

(** What [derivePreviewStyle] leaves in [cssText]. *)
Definition derived_style (dom : Dom) (transition : bool) (s : State)
  : option PreviewStyle :=
  match previewRef dom with
  | None => cssText s
  | Some _ =>
      Some {| translateX := offsetX s;
              translateY := offsetY s;
              rotateDeg := rotate s;
              scaleFactor := scale s;
              cursor := if dragging s then grabbing else grab;
              transitionNone :=
                if dragging s then true else negb transition |}
  end.

(** The actions of a list of mouse moves. *)
Definition mousemoves (l : list MouseEvent) : list Action := map Mousemove l.

(** A window in which no preview is mounted. *)
Definition empty_dom : Dom :=
  {| innerWidth := 1000; innerHeight := 800; previewRef := None |}.

(** [x] brought into [-limit, limit]. *)
Definition clamp_to (limit x : Q) : Q := Qmax (- limit) (Qmin limit x).

(** The actions that neither start nor end a drag. *)
Definition keeps_drag (a : Action) : bool :=
  match a with
  | Mousedown _ | Mouseup _ => false
  | _ => true
  end.

(** The style the state describes: what [derivePreviewStyle()] writes with
    the transition left on. *)
Definition written_style (s : State) : PreviewStyle :=
  {| translateX := offsetX s;
     translateY := offsetY s;
     rotateDeg := rotate s;
     scaleFactor := scale s;
     cursor := if dragging s then grabbing else grab;
     transitionNone := dragging s |}.

(** Nothing was drawn yet, or the element carries the style the state
    describes, or a frame that will draw it is pending. *)
Definition style_settled (s : State) : Prop :=
  cssText s = None
  \/ cssText s = Some (written_style s)
  \/ frameRequested s = true.

(** The actions that reset the transform and do not redraw. *)
Definition resets_without_redraw (a : Action) : bool :=
  match a with
  | ClickPrev | ClickNext | AfterLeave => true
  | _ => false
  end.

(** The calls [close] makes, in order. *)
Definition close_calls (props : Props) : list Call :=
  (if onClose props then [call_onClose] else [])
  ++ (if onUpdateShow props then [call_onUpdateShow false] else [])
  ++ (if onUpdate_show props then [call_onUpdate_show false] else []).

(** The state is on the zoom ladder: the exponent is an integer from -2
    on, the scale is [1.5 ^ scaleExp] brought into [0.5, maxScale], and the
    step below is still under [maxScale]. *)
Definition on_ladder (dom : Dom) (s : State) : Prop :=
  exists (e : Z) (q m : Q),
    scaleExp s = Fin e
    /\ scale s = Fin q
    /\ getMaxScale dom = Fin m
    /\ (-2 <= e)%Z
    /\ scaleRadix ^ (e - 1) < m
    /\ q == Qmax (1 # 2) (Qmin m (scaleRadix ^ e)).

(** The actions that set the scale from the original size of the image. *)
Definition leaves_ladder (a : Action) : bool :=
  match a with
  | Dblclick | ClickResizeToOriginalSize => true
  | _ => false
  end.

(** The actions the ladder is followed through: all but those and the two
    keys that switch without a reset. *)
Definition follows_ladder (a : Action) : bool :=
  negb (leaves_ladder a) && negb (switches_by_key a).

(** In the session [l], entered at [dom], the document changes only behind
    an action that resets the transform (the switch buttons, whose hook
    lets the parent show another image, and the after-leave hook, behind
    which the preview may be shown again on another one), and every
    document has a viewport wider and higher than [BLEEDING]. *)
Fixpoint replaced_at_resets (dom : Dom) (l : list (Action * Dom)) : Prop :=
  match l with
  | [] => True
  | ad :: l' =>
      (resets_without_redraw (fst ad) = false -> snd ad = dom)
      /\ viewport_exceeds_bleeding (snd ad)
      /\ replaced_at_resets (snd ad) l'
  end.

(** The window of [spanning_dom] showing a 400 by 300 image, which fits. *)
Definition small_image_dom : Dom :=
  window_of 1000 800 (still_image 400 300 (box 300 250 400 300)).

(** Three steps up the ladder on the large image, the switch button, behind
    which the small image is shown, and three steps up again, the last one
    by key. *)
Definition two_image_session : list (Action * Dom) :=
  [(ClickZoomIn, spanning_dom); (ClickZoomIn, spanning_dom);
   (ClickZoomIn, spanning_dom); (ClickNext, small_image_dom);
   (ClickZoomIn, small_image_dom); (ClickZoomIn, small_image_dom);
   (Keydown "ArrowUp", small_image_dom)].

(** * Properties *)

(** ** Comparisons of rationals as propositions *)

Lemma Qlt_bool_iff (x y : Q) : Qlt_bool x y = true <-> x < y.
Proof.
  unfold Qlt_bool. rewrite negb_true_iff.
  split; intro H.
  - apply Qnot_le_lt. intro Hle. apply Qle_bool_iff in Hle. congruence.
  - destruct (Qle_bool y x) eqn:E; trivial.
    apply Qle_bool_iff in E. lra.
Qed.

Lemma Qlt_bool_false_iff (x y : Q) : Qlt_bool x y = false <-> y <= x.
Proof.
  unfold Qlt_bool. rewrite negb_false_iff. apply Qle_bool_iff.
Qed.

Lemma Qle_bool_false_iff (x y : Q) : Qle_bool x y = false <-> y < x.
Proof.
  rewrite <- Qlt_bool_iff. unfold Qlt_bool.
  destruct (Qle_bool x y); simpl; split; congruence.
Qed.

Lemma Qeq_bool_false_iff (x y : Q) : Qeq_bool x y = false <-> ~ x == y.
Proof.
  rewrite <- Qeq_bool_iff. destruct (Qeq_bool x y); split; congruence.
Qed.

(** Turn every boolean test on rationals among the hypotheses into the
    order fact it decides. *)
Ltac qprop :=
  repeat match goal with
    | H : Qle_bool _ _ = true |- _ => apply Qle_bool_iff in H
    | H : Qle_bool _ _ = false |- _ => apply Qle_bool_false_iff in H
    | H : Qlt_bool _ _ = true |- _ => apply Qlt_bool_iff in H
    | H : Qlt_bool _ _ = false |- _ => apply Qlt_bool_false_iff in H
    | H : Qeq_bool _ _ = true |- _ => apply Qeq_bool_iff in H
    | H : Qeq_bool _ _ = false |- _ => apply Qeq_bool_false_iff in H
    end.

(** Split on the tests of rationals the goal branches on. *)
Ltac qcases :=
  repeat match goal with
    | |- context [Qle_bool ?a ?b] => destruct (Qle_bool a b) eqn:?
    | |- context [Qlt_bool ?a ?b] => destruct (Qlt_bool a b) eqn:?
    | |- context [Qeq_bool ?a ?b] => destruct (Qeq_bool a b) eqn:?
    end;
  qprop.

(** Linear arithmetic, reading [x / 2] as [x * (1 # 2)]. *)
Ltac qlra := unfold Qdiv in *; change (/ 2) with (1 # 2) in *; lra.

(** Name every [Qmin] and [Qmax] and split on which argument it is. *)
Ltac qminmax :=
  repeat match goal with
    | H : context [Qmax _ _] |- _ => revert H
    | H : context [Qmin _ _] |- _ => revert H
    | |- context [Qmax ?a ?b] =>
        let H := fresh in
        let m := fresh "m" in
        pose proof (Q.max_spec a b) as H; revert H;
        generalize (Qmax a b); intros m [[? ?] | [? ?]]
    | |- context [Qmin ?a ?b] =>
        let H := fresh in
        let m := fresh "m" in
        pose proof (Q.min_spec a b) as H; revert H;
        generalize (Qmin a b); intros m [[? ?] | [? ?]]
    end;
  intros.

(** ** Reading the handlers *)

(** [derivePreviewStyle] is one write of [cssText]. *)
Lemma derivePreviewStyle_writes :
  forall dom transition s,
    derivePreviewStyle dom transition s
    = set_cssText s (derived_style dom transition s).
Proof.
  intros dom transition s. unfold derivePreviewStyle, derived_style.
  destruct (previewRef dom); [reflexivity |]. now destruct s.
Qed.

(** Reduce the fields of a state built by the setters. *)
Ltac fields :=
  cbn [startX startY offsetX offsetY startOffsetX startOffsetY
       mouseDownClientX mouseDownClientY dragging scaleExp scale rotate
       cssText frameRequested listening uncontrolledShow displayed calls
       set_start set_offset set_startOffset set_mouseDownClient set_dragging
       set_scaleExp set_scale set_rotate set_cssText set_frameRequested
       set_listening set_uncontrolledShow set_displayed emit] in *.

(** Open the handler an action runs, splitting on the guards it tests,
    with every [derivePreviewStyle] read as a write of [cssText]. *)
Ltac open_zoomIn :=
  unfold zoomIn;
  match goal with
  | |- context [ltb (scale ?t) ?m] => destruct (ltb (scale t) m) eqn:?
  end.

Ltac open_zoomOut :=
  unfold zoomOut;
  match goal with
  | |- context [gtb (scale ?t) ?h] => destruct (gtb (scale t) h) eqn:?
  end.

Ltac open_close props :=
  unfold close, doUpdateShow, emit_if;
  match goal with
  | |- context [mergedShow props ?t] => destruct (mergedShow props t) eqn:?
  end;
  [destruct (onClose props), (onUpdateShow props), (onUpdate_show props) |].

Ltac open_keydown dom props key :=
  unfold handleKeydown;
  destruct (key =? " ")%string eqn:?;
  [| destruct (key =? "ArrowLeft")%string eqn:?;
     [unfold emit_if; destruct (onPrev props)
     | destruct (key =? "ArrowRight")%string eqn:?;
       [unfold emit_if; destruct (onNext props)
       | destruct (key =? "ArrowUp")%string eqn:?;
         [open_zoomIn
         | destruct (key =? "ArrowDown")%string eqn:?;
           [open_zoomOut
           | destruct (key =? "Escape")%string eqn:?;
             [open_close props |]]]]]].

Ltac open_step dom props s :=
  lazymatch goal with
  | |- context [step dom props (Mousedown ?e) s] =>
      cbn [step]; unfold handlePreviewMousedown;
      destruct (negb (button e =? 0)%Z) eqn:?
  | |- context [step dom props (Mousemove ?e) s] =>
      cbn [step]; destruct (listening s) eqn:?; [unfold handleMouseMove |]
  | |- context [step dom props (Mouseup ?e) s] =>
      cbn [step]; destruct (listening s) eqn:?; [unfold handleMouseUp |]
  | |- context [step dom props Frame s] =>
      cbn [step]; unfold handleFrame; destruct (frameRequested s) eqn:?
  | |- context [step dom props Dblclick s] =>
      cbn [step]; unfold handlePreviewDblclick
  | |- context [step dom props (Keydown ?key) s] =>
      cbn [step]; destruct (mergedShow props s) eqn:?;
      [open_keydown dom props key |]
  | |- context [step dom props ClickZoomIn s] => cbn [step]; open_zoomIn
  | |- context [step dom props ClickZoomOut s] => cbn [step]; open_zoomOut
  | |- context [step dom props ClickRotateCounterclockwise s] =>
      cbn [step]; unfold rotateCounterclockwise
  | |- context [step dom props ClickRotateClockwise s] =>
      cbn [step]; unfold rotateClockwise
  | |- context [step dom props ClickResizeToOriginalSize s] =>
      cbn [step]; unfold resizeToOrignalImageSize
  | |- context [step dom props ClickPrev s] =>
      cbn [step]; unfold handleSwitchPrev, resetScale, emit_if;
      destruct (onPrev props)
  | |- context [step dom props ClickNext s] =>
      cbn [step]; unfold handleSwitchNext, resetScale, emit_if;
      destruct (onNext props)
  | |- context [step dom props ClickClose s] => cbn [step]; open_close props
  | |- context [step dom props AfterLeave s] =>
      cbn [step]; unfold handleAfterLeave, resetScale
  end;
  rewrite ?derivePreviewStyle_writes.

(** A recorded call does not change what the zoom steps do. *)
Lemma zoomIn_after_emit :
  forall dom c s, zoomIn dom (emit s c) = emit (zoomIn dom s) c.
Proof.
  intros dom c s. unfold zoomIn.
  change (scale (emit s c)) with (scale s).
  destruct (ltb (scale s) (getMaxScale dom)); [| reflexivity].
  rewrite !derivePreviewStyle_writes. reflexivity.
Qed.

Lemma zoomOut_after_emit :
  forall dom c s, zoomOut dom (emit s c) = emit (zoomOut dom s) c.
Proof.
  intros dom c s. unfold zoomOut.
  change (scale (emit s c)) with (scale s).
  destruct (gtb (scale s) (Fin (1 # 2))); [| reflexivity].
  rewrite !derivePreviewStyle_writes.
  unfold derived_style, getDerivedOffset.
  destruct (previewRef dom); reflexivity.
Qed.

(** ** The exponent of a scale

    [ceil_log] searches with a bounded number of steps; the bound is
    enough, so that it returns the least [n] with [q <= 1.5 ^ n]. *)









(** ** The boundary clamp, axis by axis *)

Section Clamp.

Variable dom : Dom.
Variable preview : PreviewEl.
Hypothesis mounted : previewRef dom = Some preview.

Variable moveStrategy : option MoveStrategy.
Variable s : State.

Let pbox := getBoundingClientRect preview (cssText s).

Lemma clampX_fits :
  width pbox <= innerWidth dom ->
  nextOffsetX (getDerivedOffset dom moveStrategy s) == 0.
Proof.
  unfold getDerivedOffset. rewrite mounted. cbn. fold pbox. intros.
  qcases; qlra.
Qed.

Lemma clampY_fits :
  height pbox <= innerHeight dom ->
  nextOffsetY (getDerivedOffset dom moveStrategy s) == 0.
Proof.
  unfold getDerivedOffset. rewrite mounted. cbn. fold pbox. intros.
  qcases; qlra.
Qed.

Lemma clampX_gap_left :
  innerWidth dom < width pbox -> 0 < left pbox ->
  nextOffsetX (getDerivedOffset dom moveStrategy s)
  == (width pbox - innerWidth dom) / 2.
Proof.
  unfold getDerivedOffset. rewrite mounted. cbn. fold pbox. intros.
  qcases; qlra.
Qed.

Lemma clampY_gap_top :
  innerHeight dom < height pbox -> 0 < top pbox ->
  nextOffsetY (getDerivedOffset dom moveStrategy s)
  == (height pbox - innerHeight dom) / 2.
Proof.
  unfold getDerivedOffset. rewrite mounted. cbn. fold pbox. intros.
  qcases; qlra.
Qed.

Lemma clampX_gap_right :
  innerWidth dom < width pbox -> left pbox <= 0 ->
  right pbox < innerWidth dom ->
  nextOffsetX (getDerivedOffset dom moveStrategy s)
  == - ((width pbox - innerWidth dom) / 2).
Proof.
  unfold getDerivedOffset. rewrite mounted. cbn. fold pbox. intros.
  qcases; qlra.
Qed.

Lemma clampY_gap_bottom :
  innerHeight dom < height pbox -> top pbox <= 0 ->
  bottom pbox < innerHeight dom ->
  nextOffsetY (getDerivedOffset dom moveStrategy s)
  == - ((height pbox - innerHeight dom) / 2).
Proof.
  unfold getDerivedOffset. rewrite mounted. cbn. fold pbox. intros.
  qcases; qlra.
Qed.

(** The last two branches: the box spans the viewport on the axis. *)
Lemma clampX_spans :
  innerWidth dom < width pbox -> left pbox <= 0 ->
  innerWidth dom <= right pbox ->
  nextOffsetX (getDerivedOffset dom moveStrategy s)
  == if is_horizontalRight (option_map moveHorizontalDirection moveStrategy)
     then Qmin ((width pbox - innerWidth dom) / 2)
               (startOffsetX s - nullish (option_map deltaHorizontal moveStrategy) 0)
     else Qmax (- ((width pbox - innerWidth dom) / 2))
               (startOffsetX s - nullish (option_map deltaHorizontal moveStrategy) 0).
Proof.
  unfold getDerivedOffset. rewrite mounted. cbn. fold pbox. intros.
  qcases; try qlra; reflexivity.
Qed.

Lemma clampY_spans :
  innerHeight dom < height pbox -> top pbox <= 0 ->
  innerHeight dom <= bottom pbox ->
  nextOffsetY (getDerivedOffset dom moveStrategy s)
  == if is_verticalBottom (option_map moveVerticalDirection moveStrategy)
     then Qmin ((height pbox - innerHeight dom) / 2)
               (startOffsetY s - nullish (option_map deltaVertical moveStrategy) 0)
     else Qmax (- ((height pbox - innerHeight dom) / 2))
               (startOffsetY s - nullish (option_map deltaVertical moveStrategy) 0).
Proof.
  unfold getDerivedOffset. rewrite mounted. cbn. fold pbox. intros.
  qcases; try qlra; reflexivity.
Qed.

End Clamp.


(** ** C1: centring and gap closure *)

(** C1.  Whenever [getDerivedOffset] measures a box, on each axis: a box no
    wider than the viewport gets offset 0; otherwise a box whose left edge
    is right of 0 gets [(boxWidth - viewportWidth) / 2]; otherwise a box
    whose right edge is left of the viewport's gets the opposite of that.
    None of the three depends on the move strategy or on the offsets the
    state holds.  The same with height, top and bottom on the Y axis. *)
Theorem getDerivedOffset_centers_and_closes_gaps :
  forall (dom : Dom) (preview : PreviewEl)
         (moveStrategy : option MoveStrategy) (s : State),
    previewRef dom = Some preview ->
    let pbox := getBoundingClientRect preview (cssText s) in
    let next := getDerivedOffset dom moveStrategy s in
    (width pbox <= innerWidth dom -> nextOffsetX next == 0)
    /\ (innerWidth dom < width pbox -> 0 < left pbox ->
        nextOffsetX next == (width pbox - innerWidth dom) / 2)
    /\ (innerWidth dom < width pbox -> left pbox <= 0 ->
        right pbox < innerWidth dom ->
        nextOffsetX next == - ((width pbox - innerWidth dom) / 2))
    /\ (height pbox <= innerHeight dom -> nextOffsetY next == 0)
    /\ (innerHeight dom < height pbox -> 0 < top pbox ->
        nextOffsetY next == (height pbox - innerHeight dom) / 2)
    /\ (innerHeight dom < height pbox -> top pbox <= 0 ->
        bottom pbox < innerHeight dom ->
        nextOffsetY next == - ((height pbox - innerHeight dom) / 2)).
Proof.
  intros dom preview moveStrategy s mounted pbox next.
  repeat split; intros.
  - now apply clampX_fits with (preview := preview).
  - now apply clampX_gap_left with (preview := preview).
  - now apply clampX_gap_right with (preview := preview).
  - now apply clampY_fits with (preview := preview).
  - now apply clampY_gap_top with (preview := preview).
  - now apply clampY_gap_bottom with (preview := preview).
Qed.

(** In [gap_dom] the left gap gives 100 and the bottom gap gives -100, with
    a strategy as well as without. *)
Lemma getDerivedOffset_centers_and_closes_gaps_witness :
  previewRef gap_dom
  = Some (still_image 2000 1600 (box 50 (-700) 1200 1000))
  /\ nextOffsetX (getDerivedOffset gap_dom (Some scenario_strategy) opened)
     == (1200 - 1000) / 2
  /\ nextOffsetY (getDerivedOffset gap_dom None opened)
     == - ((1000 - 800) / 2).
Proof.
  split; [reflexivity | split].
  - apply (getDerivedOffset_centers_and_closes_gaps gap_dom _
             (Some scenario_strategy) opened eq_refl);
      vm_compute; reflexivity.
  - apply (getDerivedOffset_centers_and_closes_gaps gap_dom _
             None opened eq_refl);
      vm_compute; solve [reflexivity | discriminate].
Defined.

(** ** C2: the direction of the drag decides when the box spans the viewport *)

(** C2.  When the measured box spans the viewport on an axis (wider than the
    viewport, left edge at or left of 0, right edge at or right of the
    viewport's), a call with a move strategy returns
    [min((boxWidth - viewportWidth) / 2, startOffsetX - deltaHorizontal)]
    for [horizontalRight] and
    [max(-(boxWidth - viewportWidth) / 2, startOffsetX - deltaHorizontal)]
    for [horizontalLeft]; on the Y axis the same with [verticalBottom] and
    [verticalTop].  With box width 1200, viewport width 1000, box left -150
    (right 1050), [horizontalRight], [startOffsetX = -100] and
    [deltaHorizontal = 50] the result is -150. *)
Theorem getDerivedOffset_spanning_follows_direction :
  forall (dom : Dom) (preview : PreviewEl) (strategy : MoveStrategy) (s : State),
    previewRef dom = Some preview ->
    let pbox := getBoundingClientRect preview (cssText s) in
    let next := getDerivedOffset dom (Some strategy) s in
    (innerWidth dom < width pbox -> left pbox <= 0 ->
     innerWidth dom <= right pbox ->
     nextOffsetX next
     == match moveHorizontalDirection strategy with
        | horizontalRight =>
            Qmin ((width pbox - innerWidth dom) / 2)
                 (startOffsetX s - deltaHorizontal strategy)
        | horizontalLeft =>
            Qmax (- ((width pbox - innerWidth dom) / 2))
                 (startOffsetX s - deltaHorizontal strategy)
        end)
    /\ (innerHeight dom < height pbox -> top pbox <= 0 ->
        innerHeight dom <= bottom pbox ->
        nextOffsetY next
        == match moveVerticalDirection strategy with
           | verticalBottom =>
               Qmin ((height pbox - innerHeight dom) / 2)
                    (startOffsetY s - deltaVertical strategy)
           | verticalTop =>
               Qmax (- ((height pbox - innerHeight dom) / 2))
                    (startOffsetY s - deltaVertical strategy)
           end)
    /\ (innerWidth dom == 1000 -> width pbox == 1200 ->
        left pbox == -150 -> right pbox == 1050 ->
        moveHorizontalDirection strategy = horizontalRight ->
        startOffsetX s == -100 -> deltaHorizontal strategy == 50 ->
        nextOffsetX next == -150).
Proof.
  intros dom preview strategy s mounted pbox next.
  assert (HX : innerWidth dom < width pbox -> left pbox <= 0 ->
               innerWidth dom <= right pbox ->
               nextOffsetX next
               == match moveHorizontalDirection strategy with
                  | horizontalRight =>
                      Qmin ((width pbox - innerWidth dom) / 2)
                           (startOffsetX s - deltaHorizontal strategy)
                  | horizontalLeft =>
                      Qmax (- ((width pbox - innerWidth dom) / 2))
                           (startOffsetX s - deltaHorizontal strategy)
                  end).
  { intros Hw Hl Hr. unfold next.
    rewrite (clampX_spans dom preview mounted (Some strategy) s Hw Hl Hr).
    cbn. destruct (moveHorizontalDirection strategy); reflexivity. }
  split; [exact HX | split].
  - intros Hh Ht Hb. unfold next.
    rewrite (clampY_spans dom preview mounted (Some strategy) s Hh Ht Hb).
    cbn. destruct (moveVerticalDirection strategy); reflexivity.
  - intros HW Hw Hl Hr Hdir Hstart Hdelta.
    rewrite HX by lra. rewrite Hdir.
    qminmax; qlra.
Qed.

(** The scenario itself, in [spanning_dom], after a drag that started at
    offset -100. *)
Lemma getDerivedOffset_spanning_follows_direction_witness :
  previewRef spanning_dom
  = Some (still_image 2000 1600 (box (-150) (-100) 1200 1000))
  /\ nextOffsetX
       (getDerivedOffset spanning_dom (Some scenario_strategy)
          (set_startOffset opened (-100) 0))
     == -150.
Proof.
  split; [reflexivity |].
  apply (getDerivedOffset_spanning_follows_direction spanning_dom _
           scenario_strategy (set_startOffset opened (-100) 0) eq_refl);
    vm_compute; reflexivity.
Defined.


(** ** C10: a call without a move strategy *)

Lemma getDerivedOffset_ignores_offset :
  forall dom moveStrategy s x y,
    getDerivedOffset dom moveStrategy (set_offset s x y)
    = getDerivedOffset dom moveStrategy s.
Proof.
  intros. unfold getDerivedOffset. destruct (previewRef dom); reflexivity.
Qed.

Lemma zoomOut_offset :
  forall dom s,
    gtb (scale s) (Fin (1 # 2)) = true ->
    offsetX (zoomOut dom s)
    = nextOffsetX (getDerivedOffset dom None (zoomOut_measuring dom s))
    /\ offsetY (zoomOut dom s)
      = nextOffsetY (getDerivedOffset dom None (zoomOut_measuring dom s)).
Proof.
  intros dom s Hgt. unfold zoomOut, zoomOut_measuring. rewrite Hgt.
  unfold derivePreviewStyle, getDerivedOffset.
  destruct (previewRef dom); split; reflexivity.
Qed.

(** [derivePreviewStyle] writes [cssText] only. *)
Lemma derivePreviewStyle_startOffset :
  forall dom transition s,
    startOffsetX (derivePreviewStyle dom transition s) = startOffsetX s
    /\ startOffsetY (derivePreviewStyle dom transition s) = startOffsetY s.
Proof.
  intros. unfold derivePreviewStyle.
  destruct (previewRef dom); split; reflexivity.
Qed.

Lemma emit_if_startOffset :
  forall present c s,
    startOffsetX (emit_if present c s) = startOffsetX s
    /\ startOffsetY (emit_if present c s) = startOffsetY s.
Proof.
  intros. unfold emit_if. destruct present; split; reflexivity.
Qed.

(** Look through the writes of [cssText] and of [calls]. *)
Ltac through_writes :=
  repeat first
    [ rewrite (proj1 (derivePreviewStyle_startOffset _ _ _))
    | rewrite (proj2 (derivePreviewStyle_startOffset _ _ _))
    | rewrite (proj1 (emit_if_startOffset _ _ _))
    | rewrite (proj2 (emit_if_startOffset _ _ _))
    | progress
        cbn [startOffsetX startOffsetY set_start set_offset set_startOffset
             set_mouseDownClient set_dragging set_scaleExp set_scale
             set_rotate set_cssText set_frameRequested set_listening
             set_uncontrolledShow set_displayed emit] ].

Lemma zoomIn_startOffset :
  forall dom s,
    startOffsetX (zoomIn dom s) = startOffsetX s
    /\ startOffsetY (zoomIn dom s) = startOffsetY s.
Proof.
  intros. unfold zoomIn.
  destruct (ltb (scale s) (getMaxScale dom)); through_writes; split; reflexivity.
Qed.

Lemma zoomOut_startOffset :
  forall dom s,
    startOffsetX (zoomOut dom s) = startOffsetX s
    /\ startOffsetY (zoomOut dom s) = startOffsetY s.
Proof.
  intros. unfold zoomOut.
  destruct (gtb (scale s) (Fin (1 # 2))); through_writes; split; reflexivity.
Qed.

Lemma close_startOffset :
  forall props s,
    startOffsetX (close props s) = startOffsetX s
    /\ startOffsetY (close props s) = startOffsetY s.
Proof.
  intros. unfold close, doUpdateShow.
  destruct (mergedShow props s); through_writes; split; reflexivity.
Qed.

Lemma step_keeps_startOffset :
  forall dom props a s,
    (forall e, a <> Mousedown e) ->
    startOffsetX (step dom props a s) = startOffsetX s
    /\ startOffsetY (step dom props a s) = startOffsetY s.
Proof.
  intros dom props a s Hnot.
  destruct a as [e|e|e| | |key| | | | | | | | | ]; cbn [step].
  - exfalso. apply (Hnot e). reflexivity.
  - destruct (listening s); [| split; reflexivity].
    unfold handleMouseMove. through_writes. split; reflexivity.
  - destruct (listening s); [| split; reflexivity].
    unfold handleMouseUp. through_writes. split; reflexivity.
  - unfold handleFrame.
    destruct (frameRequested s); through_writes; split; reflexivity.
  - unfold handlePreviewDblclick. through_writes. split; reflexivity.
  - destruct (mergedShow props s); [| split; reflexivity].
    unfold handleKeydown.
    destruct (key =? " ")%string; [split; reflexivity |].
    destruct (key =? "ArrowLeft")%string;
      [through_writes; split; reflexivity |].
    destruct (key =? "ArrowRight")%string;
      [through_writes; split; reflexivity |].
    destruct (key =? "ArrowUp")%string.
    { destruct (zoomIn_startOffset dom (emit s call_preventDefault)) as [-> ->].
      split; reflexivity. }
    destruct (key =? "ArrowDown")%string.
    { destruct (zoomOut_startOffset dom (emit s call_preventDefault)) as [-> ->].
      split; reflexivity. }
    destruct (key =? "Escape")%string; [apply close_startOffset |].
    split; reflexivity.
  - apply zoomIn_startOffset.
  - apply zoomOut_startOffset.
  - unfold rotateCounterclockwise. through_writes. split; reflexivity.
  - unfold rotateClockwise. through_writes. split; reflexivity.
  - unfold resizeToOrignalImageSize. through_writes. split; reflexivity.
  - unfold handleSwitchPrev, resetScale. through_writes. split; reflexivity.
  - unfold handleSwitchNext, resetScale. through_writes. split; reflexivity.
  - apply close_startOffset.
  - unfold handleAfterLeave, resetScale. split; reflexivity.
Qed.

(** C10.  Called without a move strategy on a box that spans the viewport,
    [getDerivedOffset] takes the [else] branch with a delta of 0: the result
    is [max(-(boxWidth - viewportWidth) / 2, startOffsetX)], and likewise
    [max(-(boxHeight - viewportHeight) / 2, startOffsetY)].  It is
    [startOffsetX] that is read, not [offsetX]: the result is the same
    whatever [offsetX] and [offsetY] hold.  [zoomOut] commits that value
    when the box it measures at the candidate scale spans the viewport.
    [startOffsetX] and [startOffsetY] are written by a primary-button
    mousedown, which copies the offset into them, and by nothing else. *)
Theorem getDerivedOffset_without_strategy_reads_startOffset :
  forall (dom : Dom) (preview : PreviewEl) (s : State),
    previewRef dom = Some preview ->
    let pbox := getBoundingClientRect preview (cssText s) in
    let zbox := getBoundingClientRect preview (cssText (zoomOut_measuring dom s)) in
    (innerWidth dom < width pbox -> left pbox <= 0 ->
     innerWidth dom <= right pbox ->
     nextOffsetX (getDerivedOffset dom None s)
     == Qmax (- ((width pbox - innerWidth dom) / 2)) (startOffsetX s))
    /\ (innerHeight dom < height pbox -> top pbox <= 0 ->
        innerHeight dom <= bottom pbox ->
        nextOffsetY (getDerivedOffset dom None s)
        == Qmax (- ((height pbox - innerHeight dom) / 2)) (startOffsetY s))
    /\ (forall x y : Q,
          getDerivedOffset dom None (set_offset s x y)
          = getDerivedOffset dom None s)
    /\ (gtb (scale s) (Fin (1 # 2)) = true ->
        innerWidth dom < width zbox -> left zbox <= 0 ->
        innerWidth dom <= right zbox ->
        offsetX (zoomOut dom s)
        == Qmax (- ((width zbox - innerWidth dom) / 2)) (startOffsetX s))
    /\ (forall e : MouseEvent,
          button e = 0%Z ->
          startOffsetX (handlePreviewMousedown dom e s) = offsetX s
          /\ startOffsetY (handlePreviewMousedown dom e s) = offsetY s)
    /\ (forall (props : Props) (a : Action),
          (forall e, a <> Mousedown e) ->
          startOffsetX (step dom props a s) = startOffsetX s
          /\ startOffsetY (step dom props a s) = startOffsetY s).
Proof.
  intros dom preview s mounted pbox zbox.
  split; [| split; [| split; [| split; [| split]]]].
  - intros Hw Hl Hr.
    rewrite (clampX_spans dom preview mounted None s Hw Hl Hr).
    cbn. setoid_replace (startOffsetX s - 0) with (startOffsetX s) by ring.
    reflexivity.
  - intros Hh Ht Hb.
    rewrite (clampY_spans dom preview mounted None s Hh Ht Hb).
    cbn. setoid_replace (startOffsetY s - 0) with (startOffsetY s) by ring.
    reflexivity.
  - intros. apply getDerivedOffset_ignores_offset.
  - intros Hgt Hw Hl Hr.
    destruct (zoomOut_offset dom s Hgt) as [-> _].
    rewrite (clampX_spans dom preview mounted None _ Hw Hl Hr).
    cbn. fold zbox.
    replace (startOffsetX (zoomOut_measuring dom s)) with (startOffsetX s).
    + setoid_replace (startOffsetX s - 0) with (startOffsetX s) by ring.
      reflexivity.
    + unfold zoomOut_measuring, derivePreviewStyle.
      rewrite mounted. reflexivity.
  - intros e He. unfold handlePreviewMousedown, derivePreviewStyle.
    rewrite He, mounted. split; reflexivity.
  - intros props a Hnot. now apply step_keeps_startOffset.
Qed.

(** In [spanning_dom], with the offset at 7 and the offset of the last drag
    start at 40, a call without strategy gives 40. *)
Lemma getDerivedOffset_without_strategy_reads_startOffset_witness :
  previewRef spanning_dom
  = Some (still_image 2000 1600 (box (-150) (-100) 1200 1000))
  /\ nextOffsetX
       (getDerivedOffset spanning_dom None
          (set_offset (set_startOffset opened 40 0) 7 0))
     == Qmax (- ((1200 - 1000) / 2)) 40.
Proof.
  split; [reflexivity |].
  apply (getDerivedOffset_without_strategy_reads_startOffset spanning_dom _
           (set_offset (set_startOffset opened 40 0) 7 0) eq_refl);
    vm_compute; solve [reflexivity | discriminate].
Defined.


(** ** C8: the offset follows the pointer during a drag *)

Lemma drag_tracks_step :
  forall dom props downX downY fromX fromY p s a,
    keeps_tracking a = true ->
    drag_tracks downX downY fromX fromY p s ->
    drag_tracks downX downY fromX fromY
      (pointer_after [a] p) (step dom props a s).
Proof.
  intros dom props downX downY fromX fromY p s a Ha
    (Hl & Hd & Hsx & Hsy & Hox & Hoy & Hmx & Hmy & Hx & Hy).
  destruct a as [e|e|e| | |key| | | | | | | | | ]; try discriminate Ha;
    cbn [keeps_tracking] in Ha; open_step dom props s;
    try match goal with
      | H : (key =? "ArrowDown")%string = true |- _ =>
          solve [rewrite H in Ha; discriminate Ha | discriminate Ha]
      end;
    try congruence;
    unfold drag_tracks; fields; cbn [pointer_after fold_left fst snd];
    repeat split; trivial.
  - rewrite Hsx. ring.
  - rewrite Hsy. ring.
Qed.

Lemma drag_tracks_run :
  forall dom props downX downY fromX fromY l p s,
    forallb keeps_tracking l = true ->
    drag_tracks downX downY fromX fromY p s ->
    drag_tracks downX downY fromX fromY
      (pointer_after l p) (run dom props l s).
Proof.
  intros dom props downX downY fromX fromY l.
  induction l as [|a l IH]; intros p s Hall Hinv; [exact Hinv |].
  cbn in Hall. apply andb_true_iff in Hall. destruct Hall as [Ha Hl].
  change (run dom props (a :: l) s) with (run dom props l (step dom props a s)).
  change (pointer_after (a :: l) p) with (pointer_after l (pointer_after [a] p)).
  apply IH; [exact Hl |].
  now apply drag_tracks_step.
Qed.

Lemma mousedown_starts_tracking :
  forall dom e s,
    button e = 0%Z ->
    drag_tracks (clientX e) (clientY e) (offsetX s) (offsetY s)
      (clientX e, clientY e) (handlePreviewMousedown dom e s).
Proof.
  intros dom e s He. unfold handlePreviewMousedown, derivePreviewStyle.
  rewrite He. cbn.
  destruct (previewRef dom); unfold drag_tracks; cbn;
    repeat split; trivial; ring.
Qed.

(** At the release, with the pointer where the last move left it, the
    target [startOffset - delta] of the strategy is the offset reached. *)
Lemma drag_release_target :
  forall downX downY fromX fromY p s,
    drag_tracks downX downY fromX fromY p s ->
    let strategy :=
      getMoveStrategy (fst p) (snd p)
        (mouseDownClientX s) (mouseDownClientY s) in
    startOffsetX s - deltaHorizontal strategy == offsetX s
    /\ startOffsetY s - deltaVertical strategy == offsetY s.
Proof.
  intros downX downY fromX fromY p s
    (_ & _ & _ & _ & Hox & Hoy & Hmx & Hmy & Hx & Hy).
  cbn. rewrite Hox, Hoy, Hmx, Hmy, Hx, Hy. split; ring.
Qed.

(** [zoomOut] leaves the drag, its listeners and its anchor as they are. *)
Lemma zoomOut_keeps_drag :
  forall dom s,
    dragging (zoomOut dom s) = dragging s
    /\ listening (zoomOut dom s) = listening s
    /\ startX (zoomOut dom s) = startX s
    /\ startY (zoomOut dom s) = startY s.
Proof.
  intros dom s. open_zoomOut; rewrite ?derivePreviewStyle_writes; fields;
    repeat split; reflexivity.
Qed.

(** The ArrowDown key on a shown preview: [zoomOut], and one
    [preventDefault]. *)
Lemma keydown_ArrowDown :
  forall dom props s,
    mergedShow props s = true ->
    step dom props (Keydown "ArrowDown") s
    = emit (zoomOut dom s) call_preventDefault.
Proof.
  intros dom props s Hshow. cbn [step]. rewrite Hshow.
  unfold handleKeydown. cbn [String.eqb Ascii.eqb Bool.eqb andb].
  apply zoomOut_after_emit.
Qed.

(** C8, amended.  After a primary-button mousedown and any actions other
    than a mousedown, the mouseup, a zoom-out (its button or the ArrowDown
    key) and resize-to-original - any number of mousemoves and frames, for
    one - the offset on each axis is the pointer's position minus its
    position at the mousedown plus the offset at the mousedown, whatever
    box the image has on screen: nothing clamps it.  The drag is still on,
    and the position and offset of the mousedown are the ones the state
    keeps in [mouseDownClientX] and [startOffsetX] (and their Y
    counterparts).  The ArrowDown key does clamp before the release: on a
    shown preview at a scale above 0.5 it replaces the offset by what
    [getDerivedOffset] returns for the box measured at the candidate scale,
    with the drag still on; the next mousemove puts the offset back on the
    pointer. *)
Theorem drag_offset_follows_pointer :
  forall (dom : Dom) (props : Props) (s : State) (e : MouseEvent)
         (acts : list Action),
    button e = 0%Z ->
    forallb keeps_tracking acts = true ->
    let s' := run dom props acts (handlePreviewMousedown dom e s) in
    let p := pointer_after acts (clientX e, clientY e) in
    (offsetX s' == fst p - clientX e + offsetX s
     /\ offsetY s' == snd p - clientY e + offsetY s
     /\ dragging s' = true
     /\ mouseDownClientX s' = clientX e
     /\ mouseDownClientY s' = clientY e
     /\ startOffsetX s' = offsetX s
     /\ startOffsetY s' = offsetY s)
    /\ (mergedShow props s' = true ->
        gtb (scale s') (Fin (1 # 2)) = true ->
        let clamped := getDerivedOffset dom None (zoomOut_measuring dom s') in
        let keyed := step dom props (Keydown "ArrowDown") s' in
        dragging keyed = true
        /\ offsetX keyed = nextOffsetX clamped
        /\ offsetY keyed = nextOffsetY clamped
        /\ forall move : MouseEvent,
             let moved := step dom props (Mousemove move) keyed in
             offsetX moved == clientX move - clientX e + offsetX s
             /\ offsetY moved == clientY move - clientY e + offsetY s).
Proof.
  intros dom props s e acts He Hacts s' p.
  destruct (drag_tracks_run dom props _ _ _ _ acts _ _ Hacts
              (mousedown_starts_tracking dom e s He))
    as (Hl & Hd & Hsx & Hsy & Hox & Hoy & Hmx & Hmy & Hx & Hy).
  fold s' in Hl, Hd, Hsx, Hsy, Hox, Hoy, Hmx, Hmy, Hx, Hy.
  split; [repeat split; assumption |].
  intros Hshow Hgt clamped keyed.
  destruct (zoomOut_keeps_drag dom s') as (Hzd & Hzl & Hzx & Hzy).
  destruct (zoomOut_offset dom s' Hgt) as [HX HY].
  unfold keyed. rewrite (keydown_ArrowDown dom props s' Hshow).
  split; [fields; congruence |].
  split; [exact HX |]. split; [exact HY |].
  intros move. cbn [step]. fields. rewrite Hzl, Hl.
  unfold handleMouseMove. fields. rewrite Hzx, Hzy, Hsx, Hsy. split; ring.
Qed.

(** A drag in [spanning_dom] from offset (0, 0) on the preview [shown]:
    down at (300, 200), moved to (310, 190), a frame, ArrowUp, moved to
    (900, 700).  The offset is (600, 500), far beyond the 100 the clamp
    would allow; ArrowDown then puts it at (0, 0). *)
Lemma drag_offset_follows_pointer_witness :
  button (pointer_at 300 200) = 0%Z
  /\ forallb keeps_tracking
       [Mousemove (pointer_at 310 190); Frame; Keydown "ArrowUp";
        Mousemove (pointer_at 900 700)]
     = true
  /\ offsetX
       (run spanning_dom shown_hooks
          [Mousemove (pointer_at 310 190); Frame; Keydown "ArrowUp";
           Mousemove (pointer_at 900 700)]
          (handlePreviewMousedown spanning_dom (pointer_at 300 200) shown))
     == 900 - 300 + 0
  /\ dragging
       (step spanning_dom shown_hooks (Keydown "ArrowDown")
          (run spanning_dom shown_hooks
             [Mousemove (pointer_at 310 190); Frame; Keydown "ArrowUp";
              Mousemove (pointer_at 900 700)]
             (handlePreviewMousedown spanning_dom (pointer_at 300 200) shown)))
     = true.
Proof.
  split; [reflexivity |]. split; [reflexivity |].
  pose proof (drag_offset_follows_pointer spanning_dom shown_hooks shown
                (pointer_at 300 200)
                [Mousemove (pointer_at 310 190); Frame; Keydown "ArrowUp";
                 Mousemove (pointer_at 900 700)]
                eq_refl eq_refl) as H.
  split; [exact (proj1 (proj1 H)) |].
  exact (proj1 (proj2 H eq_refl eq_refl)).
Defined.

(** The claim as it stands fails on a key pressed in the middle of a drag.
    On [shown] in [spanning_dom]: the button goes down at (300, 200), the
    pointer moves to (250, 200) and a frame draws the offset (-50, 0); the
    drag is on and ArrowDown is pressed.  [zoomOut] clamps: the box spans
    the window and no strategy is passed, so the offset becomes
    [max(-100, startOffsetX) = 0], not the -50 of the pointer, while
    [dragging] is still true and the mouseup has not come. *)
Lemma keydown_zoomOut_clamps_during_drag :
  let dragged :=
    run spanning_dom shown_hooks [Mousemove (pointer_at 250 200); Frame]
      (handlePreviewMousedown spanning_dom (pointer_at 300 200) shown) in
  let keyed := step spanning_dom shown_hooks (Keydown "ArrowDown") dragged in
  mergedShow shown_hooks dragged = true
  /\ dragging dragged = true
  /\ offsetX dragged == 250 - 300 + 0
  /\ dragging keyed = true
  /\ listening keyed = true
  /\ offsetX keyed == 0
  /\ ~ offsetX keyed == 250 - 300 + 0.
Proof.
  cbv zeta.
  repeat split; try (vm_compute; reflexivity); vm_compute; discriminate.
Qed.


(** ** C7: switching images *)

Lemma handleSwitchPrev_resets :
  forall props s,
    scale (handleSwitchPrev props s) = Fin 1
    /\ scaleExp (handleSwitchPrev props s) = Fin 0%Z
    /\ rotate (handleSwitchPrev props s) = 0%Z
    /\ calls (handleSwitchPrev props s)
      = calls s ++ (if onPrev props then [call_onPrev] else []).
Proof.
  intros props s. unfold handleSwitchPrev, resetScale, emit_if.
  destruct (onPrev props); cbn; repeat split; trivial.
  now rewrite app_nil_r.
Qed.

Lemma handleSwitchNext_resets :
  forall props s,
    scale (handleSwitchNext props s) = Fin 1
    /\ scaleExp (handleSwitchNext props s) = Fin 0%Z
    /\ rotate (handleSwitchNext props s) = 0%Z
    /\ calls (handleSwitchNext props s)
      = calls s ++ (if onNext props then [call_onNext] else []).
Proof.
  intros props s. unfold handleSwitchNext, resetScale, emit_if.
  destruct (onNext props); cbn; repeat split; trivial.
  now rewrite app_nil_r.
Qed.

(** C7.  The buttons reset the transform and call the hook; the arrow keys
    only call the hook.  After [zoomIn(); rotateClockwise()] on the open
    preview the scale is 3/2, the exponent 1 and the rotation 90.  From
    there a click on next leaves scale 1, exponent 0, rotation 0 and has
    called [onNext], but a keydown of ArrowLeft or ArrowRight calls [onPrev]
    or [onNext] and leaves scale 3/2, exponent 1, rotation 90.  In every
    state the two keys leave [scale], [scaleExp] and [rotate] as they are. *)
Theorem keydown_arrows_call_hook_without_reset :
  let s := run spanning_dom all_hooks [ClickZoomIn; ClickRotateClockwise] opened in
  let transform (t : State) := (scale t, scaleExp t, rotate t, calls t) in
  mergedShow all_hooks s = true
  /\ transform s = (Fin (3 # 2), Fin 1%Z, 90%Z, [])
  /\ transform (step spanning_dom all_hooks ClickNext s)
     = (Fin 1, Fin 0%Z, 0%Z, [call_onNext])
  /\ transform (step spanning_dom all_hooks ClickPrev s)
     = (Fin 1, Fin 0%Z, 0%Z, [call_onPrev])
  /\ transform (step spanning_dom all_hooks (Keydown "ArrowRight") s)
     = (Fin (3 # 2), Fin 1%Z, 90%Z, [call_onNext])
  /\ transform (step spanning_dom all_hooks (Keydown "ArrowLeft") s)
     = (Fin (3 # 2), Fin 1%Z, 90%Z, [call_onPrev])
  /\ (forall (dom : Dom) (props : Props) (t : State) (key : string),
        key = "ArrowLeft"%string \/ key = "ArrowRight"%string ->
        scale (handleKeydown dom props key t) = scale t
        /\ scaleExp (handleKeydown dom props key t) = scaleExp t
        /\ rotate (handleKeydown dom props key t) = rotate t).
Proof.
  cbv zeta.
  do 6 (split; [vm_compute; reflexivity |]).
  intros dom props t key [-> | ->]; unfold handleKeydown, emit_if;
    cbn [String.eqb Ascii.eqb Bool.eqb andb];
    [destruct (onPrev props) | destruct (onNext props)];
    repeat split; reflexivity.
Qed.

(** ** Ratios of natural size to viewport size *)

Lemma ratio_finite :
  forall natural viewport : Q,
    ~ viewport == BLEEDING ->
    div (Fin natural) (sub (Fin viewport) (Fin BLEEDING))
    = Fin (natural / (viewport - BLEEDING)).
Proof.
  intros natural viewport Hne. cbn.
  destruct (Qeq_bool (viewport + - BLEEDING) 0) eqn:E; [| reflexivity].
  qprop. exfalso. apply Hne. lra.
Qed.

Lemma ratio_over_zero :
  forall natural viewport : Q,
    viewport == BLEEDING ->
    div (Fin natural) (sub (Fin viewport) (Fin BLEEDING)) = signed_inf natural.
Proof.
  intros natural viewport He. cbn.
  destruct (Qeq_bool (viewport + - BLEEDING) 0) eqn:E; [reflexivity |].
  qprop. exfalso. apply E. lra.
Qed.

Lemma signed_inf_nonneg :
  forall q : Q, 0 <= q -> signed_inf q = PosInf \/ signed_inf q = NaN.
Proof.
  intros q Hq. unfold signed_inf.
  destruct (Qlt_bool 0 q) eqn:E1; [now left |].
  destruct (Qlt_bool q 0) eqn:E2; [| now right].
  qprop. lra.
Qed.

Lemma getMaxScale_value :
  forall dom preview,
    previewRef dom = Some preview ->
    viewport_differs_from_bleeding dom ->
    getMaxScale dom
    = Fin (Qmax (Qmax 3
                   (Qmax 1 (naturalHeight preview / (innerHeight dom - BLEEDING)) * 2))
                (Qmax 1 (naturalWidth preview / (innerWidth dom - BLEEDING)) * 2)).
Proof.
  intros dom preview mounted [HW HH]. unfold getMaxScale. rewrite mounted.
  rewrite !ratio_finite by assumption. reflexivity.
Qed.

Lemma getOrignalImageSizeScale_value :
  forall dom preview,
    previewRef dom = Some preview ->
    viewport_differs_from_bleeding dom ->
    let heightScale := naturalHeight preview / (innerHeight dom - BLEEDING) in
    let widthScale := naturalWidth preview / (innerWidth dom - BLEEDING) in
    getOrignalImageSizeScale dom
    = Fin (if Qlt_bool heightScale 1 && Qlt_bool widthScale 1
           then 1 else Qmax heightScale widthScale).
Proof.
  intros dom preview mounted [HW HH]. unfold getOrignalImageSizeScale.
  rewrite mounted. rewrite !ratio_finite by assumption. cbn.
  match goal with |- context [if ?c then _ else _] => destruct c end;
    reflexivity.
Qed.

(** Doubling the ratios raised to 1 does not change the maximum with 3. *)
Lemma max_of_doubled_ratios :
  forall h w : Q,
    Qmax (Qmax 3 (Qmax 1 h * 2)) (Qmax 1 w * 2)
    == Qmax 3 (Qmax (2 * h) (2 * w)).
Proof.
  intros h w. qminmax; lra.
Qed.

Lemma derivePreviewStyle_scale :
  forall dom transition s,
    scale (derivePreviewStyle dom transition s) = scale s
    /\ scaleExp (derivePreviewStyle dom transition s) = scaleExp s.
Proof.
  intros. unfold derivePreviewStyle.
  destruct (previewRef dom); split; reflexivity.
Qed.

(** What [zoomIn] leaves in [scale] and [scaleExp] when it acts. *)
Lemma zoomIn_acts :
  forall dom s,
    ltb (scale s) (getMaxScale dom) = true ->
    scale (zoomIn dom s)
    = min (getMaxScale dom) (pow scaleRadix (succ (scaleExp s)))
    /\ scaleExp (zoomIn dom s) = succ (scaleExp s).
Proof.
  intros dom s Hlt. unfold zoomIn. rewrite Hlt.
  destruct (derivePreviewStyle_scale dom true
              (set_scale (set_scaleExp s (succ (scaleExp s)))
                 (min (getMaxScale dom)
                    (pow scaleRadix
                       (scaleExp (set_scaleExp s (succ (scaleExp s))))))))
    as [-> ->].
  split; reflexivity.
Qed.

Lemma zoomIn_idle :
  forall dom s, ltb (scale s) (getMaxScale dom) = false -> zoomIn dom s = s.
Proof.
  intros dom s Hlt. unfold zoomIn. now rewrite Hlt.
Qed.

(** ** C5: the maximum scale *)

(** C5.  For a mounted image, whatever its natural size, in a viewport
    wider and higher than [BLEEDING], [getMaxScale] is
    [max(3, 2 * heightRatio, 2 * widthRatio)] with
    [heightRatio = naturalHeight / (innerHeight - BLEEDING)] and
    [widthRatio = naturalWidth / (innerWidth - BLEEDING)].  For a 1000 by
    800 viewport and a 2000 by 1600 image the two doubled ratios are
    3200/768 = 4.1666... and 4000/968 = 4.1322..., the maximum is 25/6, and
    one [zoomIn] from scale 1 and exponent 0 gives exponent 1 and scale
    3/2. *)
Theorem getMaxScale_formula :
  forall (dom : Dom) (preview : PreviewEl),
    previewRef dom = Some preview ->
    BLEEDING < innerWidth dom ->
    BLEEDING < innerHeight dom ->
    let heightRatio := naturalHeight preview / (innerHeight dom - BLEEDING) in
    let widthRatio := naturalWidth preview / (innerWidth dom - BLEEDING) in
    same (getMaxScale dom)
         (Fin (Qmax 3 (Qmax (2 * heightRatio) (2 * widthRatio))))
    /\ (innerWidth dom == 1000 -> innerHeight dom == 800 ->
        naturalWidth preview == 2000 -> naturalHeight preview == 1600 ->
        2 * heightRatio == 3200 # 768
        /\ 2 * widthRatio == 4000 # 968
        /\ (4166 # 1000) < 2 * heightRatio < (4167 # 1000)
        /\ (4132 # 1000) < 2 * widthRatio < (4133 # 1000)
        /\ same (getMaxScale dom) (Fin (25 # 6))
        /\ forall s : State,
             same (scale s) (Fin 1) -> scaleExp s = Fin 0%Z ->
             scaleExp (zoomIn dom s) = Fin 1%Z
             /\ same (scale (zoomIn dom s)) (Fin (3 # 2))).
Proof.
  intros dom preview mounted HW HH heightRatio widthRatio.
  assert (Hdiff : viewport_differs_from_bleeding dom).
  { split; intro E; rewrite E in *; lra. }
  assert (Hmax : same (getMaxScale dom)
                   (Fin (Qmax 3 (Qmax (2 * heightRatio) (2 * widthRatio))))).
  { rewrite (getMaxScale_value dom preview mounted Hdiff). cbn.
    apply max_of_doubled_ratios. }
  split; [exact Hmax |].
  intros EW EH Enw Enh.
  assert (Hh : 2 * heightRatio == 3200 # 768).
  { unfold heightRatio. rewrite Enh, EH. reflexivity. }
  assert (Hw : 2 * widthRatio == 4000 # 968).
  { unfold widthRatio. rewrite Enw, EW. reflexivity. }
  assert (Hvalue : same (getMaxScale dom) (Fin (25 # 6))).
  { destruct (getMaxScale dom) as [m | | |]; try contradiction.
    cbn in Hmax |- *. rewrite Hmax. revert Hh Hw.
    generalize (2 * heightRatio) (2 * widthRatio). intros h w Hh Hw.
    qminmax; lra. }
  repeat split; try lra; try assumption.
  - destruct (getMaxScale dom) as [m | | |] eqn:Em; try contradiction.
    cbn in Hvalue.
    destruct (scale s) as [x | | |] eqn:Ex; try contradiction. cbn in H.
    assert (Hlt : ltb (scale s) (getMaxScale dom) = true).
    { rewrite Ex, Em. cbn. apply Qlt_bool_iff. lra. }
    destruct (zoomIn_acts dom s Hlt) as [_ ->]. rewrite H0. reflexivity.
  - destruct (getMaxScale dom) as [m | | |] eqn:Em; try contradiction.
    cbn in Hvalue.
    destruct (scale s) as [x | | |] eqn:Ex; try contradiction. cbn in H.
    assert (Hlt : ltb (scale s) (getMaxScale dom) = true).
    { rewrite Ex, Em. cbn. apply Qlt_bool_iff. lra. }
    destruct (zoomIn_acts dom s Hlt) as [-> _]. rewrite H0, Em. cbn.
    unfold scaleRadix. clear Hmax.
    qminmax; lra.
Qed.

(** [spanning_dom] is the 1000 by 800 window with the 2000 by 1600 image. *)
Lemma getMaxScale_formula_witness :
  previewRef spanning_dom
  = Some (still_image 2000 1600 (box (-150) (-100) 1200 1000))
  /\ BLEEDING < innerWidth spanning_dom
  /\ BLEEDING < innerHeight spanning_dom
  /\ same (getMaxScale spanning_dom)
          (Fin (Qmax 3 (Qmax (2 * (1600 / (800 - BLEEDING)))
                             (2 * (2000 / (1000 - BLEEDING)))))).
Proof.
  assert (HW : BLEEDING < innerWidth spanning_dom) by reflexivity.
  assert (HH : BLEEDING < innerHeight spanning_dom) by reflexivity.
  split; [reflexivity |].
  split; [exact HW |]. split; [exact HH |].
  exact (proj1 (getMaxScale_formula spanning_dom _ eq_refl HW HH)).
Defined.

(** ** C6: the denominators are not guarded *)

Lemma max_not_finite_r :
  forall a b : number, b = PosInf \/ b = NaN -> ~ finite (max a b).
Proof.
  intros a b [-> | ->]; destruct a; cbn; tauto.
Qed.

Lemma max_not_finite_l :
  forall a b : number, a = PosInf \/ a = NaN -> ~ finite (max a b).
Proof.
  intros a b [-> | ->]; destruct b; cbn; tauto.
Qed.

Lemma max_one_of_unbounded :
  forall a : number,
    a = PosInf \/ a = NaN ->
    mul (max (Fin 1) a) (Fin 2) = PosInf \/ mul (max (Fin 1) a) (Fin 2) = NaN.
Proof.
  intros a [-> | ->]; cbn; [left | right]; reflexivity.
Qed.

Lemma getMaxScale_not_finite :
  forall dom preview,
    previewRef dom = Some preview ->
    0 <= naturalWidth preview ->
    0 <= naturalHeight preview ->
    innerWidth dom == BLEEDING \/ innerHeight dom == BLEEDING ->
    ~ finite (getMaxScale dom).
Proof.
  intros dom preview mounted Hnw Hnh [E | E];
    unfold getMaxScale; rewrite mounted; unfold max3.
  - apply max_not_finite_r, max_one_of_unbounded.
    rewrite (ratio_over_zero _ _ E). now apply signed_inf_nonneg.
  - apply max_not_finite_l.
    destruct (max_one_of_unbounded
                (div (Fin (naturalHeight preview))
                   (sub (Fin (innerHeight dom)) (Fin BLEEDING)))) as [-> | ->];
      [| now left | now right].
    rewrite (ratio_over_zero _ _ E). now apply signed_inf_nonneg.
Qed.

Lemma getOrignalImageSizeScale_not_finite :
  forall dom preview,
    previewRef dom = Some preview ->
    0 <= naturalWidth preview ->
    0 <= naturalHeight preview ->
    innerWidth dom == BLEEDING \/ innerHeight dom == BLEEDING ->
    ~ finite (getOrignalImageSizeScale dom).
Proof.
  intros dom preview mounted Hnw Hnh [E | E];
    unfold getOrignalImageSizeScale; rewrite mounted;
    rewrite (ratio_over_zero _ _ E).
  - destruct (signed_inf_nonneg _ Hnw) as [-> | ->];
      rewrite andb_false_r;
      apply max_not_finite_r; [now left | now right].
  - destruct (signed_inf_nonneg _ Hnh) as [-> | ->]; cbn [ltb andb];
      apply max_not_finite_l; [now left | now right].
Qed.

Lemma differs_or_equals_bleeding :
  forall dom,
    viewport_differs_from_bleeding dom
    \/ innerWidth dom == BLEEDING \/ innerHeight dom == BLEEDING.
Proof.
  intros dom. unfold viewport_differs_from_bleeding.
  destruct (Qeq_dec (innerWidth dom) BLEEDING) as [E | E]; [tauto |].
  destruct (Qeq_dec (innerHeight dom) BLEEDING) as [E' | E']; tauto.
Qed.

(** C6, as the code has it.  The two ratio computations divide by
    [innerWidth - BLEEDING] and [innerHeight - BLEEDING] as they are; no
    denominator is clamped.  For a mounted image of non-negative natural
    size, [getMaxScale] and [getOrignalImageSizeScale] return a finite
    number exactly when neither viewport dimension equals [BLEEDING], and
    then they are the values computed with the unclamped denominators
    ([getMaxScale] raises each ratio, not each denominator, to at least
    1). *)
Theorem ratios_finite_iff_viewport_differs_from_bleeding :
  forall (dom : Dom) (preview : PreviewEl),
    previewRef dom = Some preview ->
    0 <= naturalWidth preview ->
    0 <= naturalHeight preview ->
    let heightScale := naturalHeight preview / (innerHeight dom - BLEEDING) in
    let widthScale := naturalWidth preview / (innerWidth dom - BLEEDING) in
    (finite (getMaxScale dom) <-> viewport_differs_from_bleeding dom)
    /\ (finite (getOrignalImageSizeScale dom)
        <-> viewport_differs_from_bleeding dom)
    /\ (viewport_differs_from_bleeding dom ->
        getMaxScale dom
        = Fin (Qmax (Qmax 3 (Qmax 1 heightScale * 2)) (Qmax 1 widthScale * 2))
        /\ getOrignalImageSizeScale dom
           = Fin (if Qlt_bool heightScale 1 && Qlt_bool widthScale 1
                  then 1 else Qmax heightScale widthScale)).
Proof.
  intros dom preview mounted Hnw Hnh heightScale widthScale.
  split; [| split].
  - split.
    + intros Hfin. destruct (differs_or_equals_bleeding dom) as [H | H]; trivial.
      now destruct (getMaxScale_not_finite dom preview mounted Hnw Hnh H).
    + intros Hdiff. now rewrite (getMaxScale_value dom preview mounted Hdiff).
  - split.
    + intros Hfin. destruct (differs_or_equals_bleeding dom) as [H | H]; trivial.
      now destruct
            (getOrignalImageSizeScale_not_finite dom preview mounted Hnw Hnh H).
    + intros Hdiff.
      now rewrite (getOrignalImageSizeScale_value dom preview mounted Hdiff).
  - intros Hdiff. split.
    + exact (getMaxScale_value dom preview mounted Hdiff).
    + exact (getOrignalImageSizeScale_value dom preview mounted Hdiff).
Qed.

(** In [low_dom] the window is 16 high: the height ratio is 100 / (16 - 32),
    negative, and [getMaxScale] is 3. *)
Lemma ratios_finite_iff_viewport_differs_from_bleeding_witness :
  previewRef low_dom = Some (still_image 100 100 (box 450 0 100 100))
  /\ 0 <= 100
  /\ getMaxScale low_dom
     = Fin (Qmax (Qmax 3 (Qmax 1 (100 / (16 - BLEEDING)) * 2))
                 (Qmax 1 (100 / (1000 - BLEEDING)) * 2)).
Proof.
  assert (Hn : 0 <= 100) by discriminate.
  split; [reflexivity |]. split; [exact Hn |].
  apply (ratios_finite_iff_viewport_differs_from_bleeding low_dom _
           eq_refl Hn Hn).
  split; intro E; discriminate E.
Defined.

(** C6, as stated, fails.  In a window exactly [BLEEDING] high the height
    ratio of a 100 by 100 image is 100 / 0: [getMaxScale] and
    [getOrignalImageSizeScale] return Infinity, where a denominator clamped
    to 1 would give the ratio 100.  In a window 16 high the clamped ratio
    would again be 100, but the code divides by -16 and returns 3 and 1. *)
Lemma ratio_denominators_are_not_clamped :
  getMaxScale bleeding_dom = PosInf
  /\ getOrignalImageSizeScale bleeding_dom = PosInf
  /\ ~ finite (getMaxScale bleeding_dom)
  /\ ~ finite (getOrignalImageSizeScale bleeding_dom)
  /\ guarded_ratio 100 (innerHeight bleeding_dom) == 100
  /\ same (getMaxScale low_dom) (Fin 3)
  /\ same (getOrignalImageSizeScale low_dom) (Fin 1)
  /\ guarded_ratio 100 (innerHeight low_dom) == 100.
Proof.
  repeat split; try (vm_compute; reflexivity); vm_compute; tauto.
Qed.

(** ** C4: the bounds of the zoom ladder *)

Lemma min_not_above :
  forall m p : number, gtb (min m p) m = false.
Proof.
  intros [m | | |] [p | | |]; cbn; trivial;
    apply Qlt_bool_false_iff; try apply Q.le_min_l; apply Qle_refl.
Qed.

(** The scale [zoomOut] ends with: the candidate [max(0.5, radix ** exp)],
    plus and then minus its difference to the scale before. *)
Lemma zoomOut_acts :
  forall dom s,
    gtb (scale s) (Fin (1 # 2)) = true ->
    let candidate := max (Fin (1 # 2)) (pow scaleRadix (pred (scaleExp s))) in
    let diff := sub (scale s) candidate in
    scale (zoomOut dom s) = sub (add candidate diff) diff
    /\ scaleExp (zoomOut dom s) = pred (scaleExp s).
Proof.
  intros dom s Hgt. unfold zoomOut. rewrite Hgt.
  unfold derivePreviewStyle. destruct (previewRef dom); split; reflexivity.
Qed.

Lemma zoomOut_idle :
  forall dom s, gtb (scale s) (Fin (1 # 2)) = false -> zoomOut dom s = s.
Proof.
  intros dom s Hgt. unfold zoomOut. now rewrite Hgt.
Qed.

Lemma candidate_not_below_half :
  forall original p : number,
    let candidate := max (Fin (1 # 2)) p in
    let diff := sub original candidate in
    ltb (sub (add candidate diff) diff) (Fin (1 # 2)) = false.
Proof.
  intros [o | | |] [p | | |]; cbn; trivial;
    apply Qlt_bool_false_iff; qminmax; lra.
Qed.

Lemma zoomIn_bound :
  forall dom s,
    zoomIn dom s = s \/ gtb (scale (zoomIn dom s)) (getMaxScale dom) = false.
Proof.
  intros dom s. destruct (ltb (scale s) (getMaxScale dom)) eqn:Hlt.
  - right. destruct (zoomIn_acts dom s Hlt) as [-> _]. apply min_not_above.
  - left. now apply zoomIn_idle.
Qed.

Lemma zoomOut_bound :
  forall dom s,
    zoomOut dom s = s \/ ltb (scale (zoomOut dom s)) (Fin (1 # 2)) = false.
Proof.
  intros dom s. destruct (gtb (scale s) (Fin (1 # 2))) eqn:Hgt.
  - right. destruct (zoomOut_acts dom s Hgt) as [-> _].
    apply candidate_not_below_half.
  - left. now apply zoomOut_idle.
Qed.

(** An operation that either does nothing or establishes [P] keeps doing
    so when repeated. *)
Lemma iter_idle_or :
  forall (f : State -> State) (P : State -> Prop),
    (forall s, f s = s \/ P (f s)) ->
    forall n s, Nat.iter n f s = s \/ P (Nat.iter n f s).
Proof.
  intros f P Hf n s. induction n as [|n IH]; [now left |].
  change (Nat.iter (S n) f s) with (f (Nat.iter n f s)).
  destruct (Hf (Nat.iter n f s)) as [E | HP]; [| now right].
  rewrite E. exact IH.
Qed.

(** C4.  With the window and the image fixed, from any state: after any
    number of [zoomIn] calls either nothing has changed or the scale is not
    above [getMaxScale]; after any number of [zoomOut] calls either nothing
    has changed or the scale is not below 0.5.  So a scale that starts
    within a bound stays within it.  [zoomOut] does nothing at all unless
    [scale > 0.5]. *)
Theorem zoom_ladder_bounds :
  forall (dom : Dom) (s : State) (n : nat),
    let zoomedIn := Nat.iter n (zoomIn dom) s in
    let zoomedOut := Nat.iter n (zoomOut dom) s in
    (zoomedIn = s \/ gtb (scale zoomedIn) (getMaxScale dom) = false)
    /\ (zoomedOut = s \/ ltb (scale zoomedOut) (Fin (1 # 2)) = false)
    /\ (gtb (scale s) (getMaxScale dom) = false ->
        gtb (scale zoomedIn) (getMaxScale dom) = false)
    /\ (ltb (scale s) (Fin (1 # 2)) = false ->
        ltb (scale zoomedOut) (Fin (1 # 2)) = false)
    /\ (gtb (scale s) (Fin (1 # 2)) = false -> zoomOut dom s = s).
Proof.
  intros dom s n zoomedIn zoomedOut.
  pose proof (iter_idle_or (zoomIn dom)
                (fun t => gtb (scale t) (getMaxScale dom) = false)
                (zoomIn_bound dom) n s) as Hin.
  pose proof (iter_idle_or (zoomOut dom)
                (fun t => ltb (scale t) (Fin (1 # 2)) = false)
                (zoomOut_bound dom) n s) as Hout.
  cbv beta in Hin, Hout. fold zoomedIn in Hin. fold zoomedOut in Hout.
  split; [exact Hin |]. split; [exact Hout |].
  split; [| split].
  - intros Hs. destruct Hin as [-> | H]; assumption.
  - intros Hs. destruct Hout as [-> | H]; assumption.
  - apply zoomOut_idle.
Qed.

(** Ten [zoomIn] and ten [zoomOut] from the open preview in
    [spanning_dom]: the scale starts at 1, within both bounds. *)
Lemma zoom_ladder_bounds_witness :
  gtb (scale opened) (getMaxScale spanning_dom) = false
  /\ ltb (scale opened) (Fin (1 # 2)) = false
  /\ gtb (scale (Nat.iter 10 (zoomIn spanning_dom) opened))
         (getMaxScale spanning_dom) = false
  /\ ltb (scale (Nat.iter 10 (zoomOut spanning_dom) opened))
         (Fin (1 # 2)) = false.
Proof.
  split; [reflexivity |]. split; [reflexivity |].
  split.
  - now apply (zoom_ladder_bounds spanning_dom opened 10).
  - now apply (zoom_ladder_bounds spanning_dom opened 10).
Defined.

(** ** C9: 0.5 as a floor of the scale *)

Lemma getOrignalImageSizeScale_at_least_one :
  forall dom,
    viewport_exceeds_bleeding dom ->
    exists q : Q, getOrignalImageSizeScale dom = Fin q /\ 1 <= q.
Proof.
  intros dom [HW HH].
  destruct (previewRef dom) as [preview |] eqn:mounted.
  - assert (Hdiff : viewport_differs_from_bleeding dom).
    { split; intro E; rewrite E in *; lra. }
    rewrite (getOrignalImageSizeScale_value dom preview mounted Hdiff).
    eexists. split; [reflexivity |].
    generalize (naturalHeight preview / (innerHeight dom - BLEEDING))
               (naturalWidth preview / (innerWidth dom - BLEEDING)).
    intros heightScale widthScale.
    destruct (Qlt_bool heightScale 1) eqn:E1; cbn [andb].
    + destruct (Qlt_bool widthScale 1) eqn:E2; [apply Qle_refl |].
      qprop. qminmax; lra.
    + qprop. qminmax; lra.
  - exists 1. split; [| lra].
    unfold getOrignalImageSizeScale. now rewrite mounted.
Qed.

Lemma getMaxScale_at_least_one :
  forall dom,
    viewport_exceeds_bleeding dom ->
    exists m : Q, getMaxScale dom = Fin m /\ 1 <= m.
Proof.
  intros dom [HW HH].
  destruct (previewRef dom) as [preview |] eqn:mounted.
  - assert (Hdiff : viewport_differs_from_bleeding dom).
    { split; intro E; rewrite E in *; lra. }
    rewrite (getMaxScale_value dom preview mounted Hdiff).
    eexists. split; [reflexivity |]. qminmax; lra.
  - exists 1. split; [| lra]. unfold getMaxScale. now rewrite mounted.
Qed.

(** [1.5 ** (e + 1) >= 0.5] from [e = -2] on. *)
Lemma radix_power_at_least_half :
  forall e : Z, (-2 <= e)%Z -> (1 # 2) <= scaleRadix ^ (e + 1).
Proof.
  intros e He.
  apply Qle_trans with (scaleRadix ^ (-1)); [discriminate |].
  apply Qpower_le_compat_l; [lia | discriminate].
Qed.

Lemma zoomIn_keeps_floor :
  forall dom s e,
    viewport_exceeds_bleeding dom ->
    scale_at_least_half s ->
    scaleExp s = Fin e ->
    (-2 <= e)%Z ->
    scale_at_least_half (zoomIn dom s) /\ exponent_is_integer (zoomIn dom s).
Proof.
  intros dom s e Hdom (q & Hq & Hhalf) He Hlow.
  destruct (ltb (scale s) (getMaxScale dom)) eqn:Hlt.
  - destruct (zoomIn_acts dom s Hlt) as [Hs Hexp].
    destruct (getMaxScale_at_least_one dom Hdom) as (m & Hm & Hone).
    split.
    + unfold scale_at_least_half. rewrite Hs, Hm, He. cbn.
      eexists. split; [reflexivity |].
      pose proof (radix_power_at_least_half e Hlow).
      qminmax; lra.
    + unfold exponent_is_integer. rewrite Hexp, He. cbn. now eexists.
  - rewrite (zoomIn_idle dom s Hlt). split; [now exists q | now exists e].
Qed.

Lemma zoomOut_keeps_floor :
  forall dom s e,
    scale_at_least_half s ->
    scaleExp s = Fin e ->
    scale_at_least_half (zoomOut dom s) /\ exponent_is_integer (zoomOut dom s).
Proof.
  intros dom s e (q & Hq & Hhalf) He.
  destruct (gtb (scale s) (Fin (1 # 2))) eqn:Hgt.
  - destruct (zoomOut_acts dom s Hgt) as [Hs Hexp].
    split.
    + unfold scale_at_least_half. rewrite Hs, Hq, He. cbn.
      eexists. split; [reflexivity |]. qminmax; lra.
    + unfold exponent_is_integer. rewrite Hexp, He. cbn. now eexists.
  - rewrite (zoomOut_idle dom s Hgt). split; [now exists q | now exists e].
Qed.

Lemma emit_if_scale :
  forall present c s,
    scale (emit_if present c s) = scale s
    /\ scaleExp (emit_if present c s) = scaleExp s.
Proof.
  intros. unfold emit_if. destruct present; split; reflexivity.
Qed.

(** Look through the writes of [cssText] and of [calls]. *)
Ltac through_writes_scale :=
  repeat first
    [ rewrite (proj1 (derivePreviewStyle_scale _ _ _))
    | rewrite (proj2 (derivePreviewStyle_scale _ _ _))
    | rewrite (proj1 (emit_if_scale _ _ _))
    | rewrite (proj2 (emit_if_scale _ _ _))
    | progress
        cbn [scale scaleExp set_start set_offset set_startOffset
             set_mouseDownClient set_dragging set_scaleExp set_scale
             set_rotate set_cssText set_frameRequested set_listening
             set_uncontrolledShow set_displayed emit] ].

(** A handler that leaves [scale] and [scaleExp] alone keeps the floor. *)
Lemma untouched_scale_keeps_floor :
  forall s s' : State,
    scale s' = scale s /\ scaleExp s' = scaleExp s ->
    scale_at_least_half s -> exponent_is_integer s ->
    scale_at_least_half s' /\ exponent_is_integer s'.
Proof.
  intros s s' [Hs He] Hhalf Hint.
  unfold scale_at_least_half, exponent_is_integer. now rewrite Hs, He.
Qed.

Lemma close_scale :
  forall props s,
    scale (close props s) = scale s /\ scaleExp (close props s) = scaleExp s.
Proof.
  intros. unfold close, doUpdateShow.
  destruct (mergedShow props s); through_writes_scale; split; reflexivity.
Qed.

(** C9, as the code has it.  In a viewport wider and higher than
    [BLEEDING], [getOrignalImageSizeScale] is a finite number, at least 1.
    From a state whose scale is finite and at least 0.5 and whose exponent
    is an integer, every action leads to such a state again, except a zoom
    in taken at an exponent below -2: [zoomIn] sets the scale to
    [min(maxScale, 1.5 ** (scaleExp + 1))], whatever the scale was. *)
Theorem scale_floor_kept_except_by_zoomIn :
  forall (dom : Dom) (props : Props) (a : Action) (s : State) (e : Z),
    viewport_exceeds_bleeding dom ->
    scale_at_least_half s ->
    scaleExp s = Fin e ->
    (zooms_in a = true -> (-2 <= e)%Z) ->
    scale_at_least_half (step dom props a s)
    /\ exponent_is_integer (step dom props a s)
    /\ exists q : Q, getOrignalImageSizeScale dom = Fin q /\ 1 <= q.
Proof.
  intros dom props a s e Hdom Hhalf He Hzoom.
  assert (Hint : exponent_is_integer s) by now exists e.
  destruct (getOrignalImageSizeScale_at_least_one dom Hdom)
    as (o & Ho & Hone).
  assert (Hone' : (1 # 2) <= 1) by discriminate.
  cut (scale_at_least_half (step dom props a s)
       /\ exponent_is_integer (step dom props a s)).
  { intros [H1 H2]. split; [exact H1 |]. split; [exact H2 |]. now exists o. }
  assert (Hreset : forall t, scale t = Fin 1 -> scaleExp t = Fin 0%Z ->
                             scale_at_least_half t /\ exponent_is_integer t).
  { intros t Ht Het. split; [now exists 1 | now exists 0%Z]. }
  destruct a as [ev|ev|ev| | |key| | | | | | | | | ]; cbn [step].
  - apply (untouched_scale_keeps_floor s); trivial.
    unfold handlePreviewMousedown.
    destruct (negb (button ev =? 0)%Z); through_writes_scale; split; reflexivity.
  - apply (untouched_scale_keeps_floor s); trivial.
    destruct (listening s); [| split; reflexivity].
    unfold handleMouseMove. through_writes_scale. split; reflexivity.
  - apply (untouched_scale_keeps_floor s); trivial.
    destruct (listening s); [| split; reflexivity].
    unfold handleMouseUp. through_writes_scale. split; reflexivity.
  - apply (untouched_scale_keeps_floor s); trivial.
    unfold handleFrame.
    destruct (frameRequested s); through_writes_scale; split; reflexivity.
  - unfold handlePreviewDblclick, scale_at_least_half, exponent_is_integer.
    through_writes_scale. rewrite Ho. split; [| exact Hint].
    destruct (eqb (scale s) (Fin o)); eexists; (split; [reflexivity |]); lra.
  - destruct (mergedShow props s); [| now split].
    unfold handleKeydown. cbn [zooms_in] in Hzoom.
    destruct (key =? " ")%string; [now split |].
    destruct (key =? "ArrowLeft")%string.
    { apply (untouched_scale_keeps_floor s); trivial. apply emit_if_scale. }
    destruct (key =? "ArrowRight")%string.
    { apply (untouched_scale_keeps_floor s); trivial. apply emit_if_scale. }
    destruct (key =? "ArrowUp")%string.
    { apply (zoomIn_keeps_floor dom (emit s call_preventDefault) e);
        trivial. now apply Hzoom. }
    destruct (key =? "ArrowDown")%string.
    { now apply (zoomOut_keeps_floor dom (emit s call_preventDefault) e). }
    destruct (key =? "Escape")%string; [| now split].
    apply (untouched_scale_keeps_floor s); trivial. apply close_scale.
  - apply (zoomIn_keeps_floor dom s e); trivial. now apply Hzoom.
  - now apply (zoomOut_keeps_floor dom s e).
  - apply (untouched_scale_keeps_floor s); trivial.
    unfold rotateCounterclockwise. through_writes_scale. split; reflexivity.
  - apply (untouched_scale_keeps_floor s); trivial.
    unfold rotateClockwise. through_writes_scale. split; reflexivity.
  - unfold resizeToOrignalImageSize, scale_at_least_half, exponent_is_integer.
    through_writes_scale. rewrite Ho. split.
    + exists o. split; [reflexivity | lra].
    + cbn [ceil_log].
      assert (Hpos : Qlt_bool 0 o = true) by (apply Qlt_bool_iff; lra).
      rewrite Hpos. now eexists.
  - apply Hreset; unfold handleSwitchPrev, resetScale;
      through_writes_scale; reflexivity.
  - apply Hreset; unfold handleSwitchNext, resetScale;
      through_writes_scale; reflexivity.
  - apply (untouched_scale_keeps_floor s); trivial. apply close_scale.
  - apply Hreset; reflexivity.
Qed.

(** A zoom in from the open preview, where the exponent is 0. *)
Lemma scale_floor_kept_except_by_zoomIn_witness :
  viewport_exceeds_bleeding spanning_dom
  /\ scale_at_least_half opened
  /\ scaleExp opened = Fin 0%Z
  /\ (zooms_in ClickZoomIn = true -> (-2 <= 0)%Z)
  /\ scale_at_least_half (step spanning_dom all_hooks ClickZoomIn opened).
Proof.
  assert (Hdom : viewport_exceeds_bleeding spanning_dom)
    by (split; reflexivity).
  assert (Hhalf : scale_at_least_half opened)
    by (exists 1; split; [reflexivity | discriminate]).
  assert (Hzoom : zooms_in ClickZoomIn = true -> (-2 <= 0)%Z)
    by (intros _; discriminate).
  split; [exact Hdom |]. split; [exact Hhalf |].
  split; [reflexivity |]. split; [exact Hzoom |].
  exact (proj1 (scale_floor_kept_except_by_zoomIn spanning_dom all_hooks
                  ClickZoomIn opened 0 Hdom Hhalf eq_refl Hzoom)).
Defined.

(** C9, as stated, fails.  In the 1000 by 800 window: two zoom outs reach
    scale 0.5 at exponent -2; the double click sets the scale to the
    original size and leaves the exponent; the next zoom out gives scale
    0.5 at exponent -3; the zoom in then sets the scale to
    [min(maxScale, 1.5 ** -2) = 4/9], below 0.5 and below the scale it
    started from. *)
Lemma zoomIn_lowers_scale_below_half :
  viewport_exceeds_bleeding spanning_dom
  /\ (let before := run spanning_dom all_hooks
                      [ClickZoomOut; ClickZoomOut; Dblclick; ClickZoomOut]
                      opened in
      same (scale before) (Fin (1 # 2)) /\ scaleExp before = Fin (-3)%Z)
  /\ (let after := run spanning_dom all_hooks stale_exponent_run opened in
      same (scale after) (Fin (4 # 9))
      /\ scaleExp after = Fin (-2)%Z
      /\ ltb (scale after) (Fin (1 # 2)) = true
      /\ ~ scale_at_least_half after).
Proof.
  split; [split; reflexivity |].
  split; [split; vm_compute; reflexivity |].
  cbv zeta.
  split; [vm_compute; reflexivity |].
  split; [vm_compute; reflexivity |].
  split; [vm_compute; reflexivity |].
  intros (q & Hq & Hhalf). vm_compute in Hq.
  injection Hq as <-. apply Hhalf. reflexivity.
Qed.

(** ** C3: clamping again *)

Lemma getDerivedOffset_axes :
  forall dom preview moveStrategy s,
    previewRef dom = Some preview ->
    let pbox := getBoundingClientRect preview (cssText s) in
    nextOffsetX (getDerivedOffset dom moveStrategy s)
    = clamp_axis (innerWidth dom) (left pbox) (right pbox) (width pbox)
        (is_horizontalRight (option_map moveHorizontalDirection moveStrategy))
        (startOffsetX s - nullish (option_map deltaHorizontal moveStrategy) 0)
    /\ nextOffsetY (getDerivedOffset dom moveStrategy s)
       = clamp_axis (innerHeight dom) (top pbox) (bottom pbox) (height pbox)
           (is_verticalBottom (option_map moveVerticalDirection moveStrategy))
           (startOffsetY s - nullish (option_map deltaVertical moveStrategy) 0).
Proof.
  intros dom preview moveStrategy s mounted pbox.
  unfold getDerivedOffset. rewrite mounted. split; reflexivity.
Qed.

Lemma clamp_again_axes :
  forall dom preview moveStrategy s,
    previewRef dom = Some preview ->
    let pbox := getBoundingClientRect preview (cssText s) in
    let first := getDerivedOffset dom moveStrategy s in
    nextOffsetX (clamp_again dom moveStrategy s)
    = clamp_axis (innerWidth dom)
        (left pbox + (nextOffsetX first - offsetX s))
        (right pbox + (nextOffsetX first - offsetX s))
        (width pbox)
        (is_horizontalRight (option_map moveHorizontalDirection moveStrategy))
        (startOffsetX s - nullish (option_map deltaHorizontal moveStrategy) 0)
    /\ nextOffsetY (clamp_again dom moveStrategy s)
       = clamp_axis (innerHeight dom)
           (top pbox + (nextOffsetY first - offsetY s))
           (bottom pbox + (nextOffsetY first - offsetY s))
           (height pbox)
           (is_verticalBottom (option_map moveVerticalDirection moveStrategy))
           (startOffsetY s - nullish (option_map deltaVertical moveStrategy) 0).
Proof.
  intros dom preview moveStrategy s mounted pbox first.
  unfold clamp_again. fold first.
  unfold getDerivedOffset at 1 2. unfold remeasured. cbn [previewRef].
  rewrite mounted. split; reflexivity.
Qed.

(** A box that fits: 0, and 0 again wherever it is moved. *)
Lemma clamp_axis_fits :
  forall viewport lo hi size towards_end target,
    size <= viewport ->
    clamp_axis viewport lo hi size towards_end target == 0.
Proof.
  intros viewport lo hi size towards_end target Hfit. unfold clamp_axis.
  destruct (Qle_bool size viewport) eqn:E; [reflexivity |].
  qprop. lra.
Qed.

(** One axis at the end of a drag: the box is centred at [offset], the
    target is [offset] itself, [towards_end] is the direction from [start]
    to [offset], and [start] was within the limits. *)
Lemma clamp_axis_fixed_after_drag :
  forall viewport lo hi size start delta offset,
    hi == lo + size ->
    lo == (viewport - size) / 2 + offset ->
    start - delta == offset ->
    within_limits viewport size start ->
    let towards_end := negb (Qlt_bool 0 delta) in
    let first := clamp_axis viewport lo hi size towards_end (start - delta) in
    clamp_axis viewport (lo + (first - offset)) (hi + (first - offset)) size
      towards_end (start - delta)
    == first.
Proof.
  intros viewport lo hi size start delta offset Hhi Hlo Hdrag Hlim
    towards_end first.
  unfold within_limits in Hlim.
  subst first towards_end. unfold clamp_axis.
  destruct (Qle_bool size viewport) eqn:Hfit; [reflexivity |].
  qprop. specialize (Hlim Hfit).
  destruct (Qlt_bool 0 delta) eqn:Hdelta; cbn [negb]; qprop.
  - destruct (Qlt_bool 0 lo) eqn:Hgap; qprop; [qlra |].
    destruct (Qlt_bool hi viewport) eqn:Hgap'; qprop.
    + qcases; qminmax; qlra.
    + qminmax; qcases; qminmax; qlra.
  - destruct (Qlt_bool 0 lo) eqn:Hgap; qprop.
    + qcases; qminmax; qlra.
    + destruct (Qlt_bool hi viewport) eqn:Hgap'; qprop; [qlra |].
      qminmax; qcases; qminmax; qlra.
Qed.

(** C3, as the code has it.  Clamping, committing the result and clamping
    again on the box moved by the correction returns the same offset
    - on an axis where the box is not larger than the viewport, whatever
      the strategy and the offsets;
    - on both axes at the end of a drag, that is with the strategy
      [handleMouseUp] computes from the pointer and with
      [startOffset - delta] equal to the offset the box was measured at,
      when the box has its right and bottom edges where its size puts them
      and is that of an image centred in the window at offset (0, 0), and
      the drag started at an offset within the limits of each axis on
      which the box is larger than the viewport. *)
Theorem clamp_again_fixed :
  forall (dom : Dom) (preview : PreviewEl)
         (moveStrategy : option MoveStrategy) (s : State),
    previewRef dom = Some preview ->
    let pbox := getBoundingClientRect preview (cssText s) in
    (width pbox <= innerWidth dom ->
     nextOffsetX (clamp_again dom moveStrategy s)
     == nextOffsetX (getDerivedOffset dom moveStrategy s))
    /\ (height pbox <= innerHeight dom ->
        nextOffsetY (clamp_again dom moveStrategy s)
        == nextOffsetY (getDerivedOffset dom moveStrategy s))
    /\ (forall up : MouseEvent,
          let strategy :=
            getMoveStrategy (clientX up) (clientY up)
              (mouseDownClientX s) (mouseDownClientY s) in
          moveStrategy = Some strategy ->
          box_consistent pbox ->
          centred_at dom (offsetX s) (offsetY s) pbox ->
          startOffsetX s - deltaHorizontal strategy == offsetX s ->
          startOffsetY s - deltaVertical strategy == offsetY s ->
          within_limits (innerWidth dom) (width pbox) (startOffsetX s) ->
          within_limits (innerHeight dom) (height pbox) (startOffsetY s) ->
          nextOffsetX (clamp_again dom moveStrategy s)
          == nextOffsetX (getDerivedOffset dom moveStrategy s)
          /\ nextOffsetY (clamp_again dom moveStrategy s)
             == nextOffsetY (getDerivedOffset dom moveStrategy s)).
Proof.
  intros dom preview moveStrategy s mounted pbox.
  destruct (getDerivedOffset_axes dom preview moveStrategy s mounted)
    as [HX HY].
  destruct (clamp_again_axes dom preview moveStrategy s mounted)
    as [HX' HY'].
  fold pbox in HX, HY, HX', HY'.
  split; [| split].
  - intros Hfit. rewrite HX', HX. now rewrite !clamp_axis_fits.
  - intros Hfit. rewrite HY', HY. now rewrite !clamp_axis_fits.
  - intros up strategy -> [Hright Hbottom] [Hleft Htop] HdragX HdragY
      HlimX HlimY.
    rewrite HX', HY'. rewrite HX, HY.
    cbn [option_map nullish] in *.
    split.
    + replace (is_horizontalRight (Some (moveHorizontalDirection strategy)))
        with (negb (Qlt_bool 0 (deltaHorizontal strategy)))
        by (cbn; destruct (Qlt_bool 0 _); reflexivity).
      now apply clamp_axis_fixed_after_drag.
    + replace (is_verticalBottom (Some (moveVerticalDirection strategy)))
        with (negb (Qlt_bool 0 (deltaVertical strategy)))
        by (cbn; destruct (Qlt_bool 0 _); reflexivity).
      now apply clamp_axis_fixed_after_drag.
Qed.

(** The drag that ends in [dragged_into_gap], released at (450, 100): it
    began at offset (0, 0), within the limits (100 and 100), and moved the
    pointer by (150, -600). *)
Lemma clamp_again_fixed_witness :
  let strategy := getMoveStrategy 450 100 300 700 in
  previewRef gap_dom
  = Some (still_image 2000 1600 (box 50 (-700) 1200 1000))
  /\ box_consistent (box 50 (-700) 1200 1000)
  /\ centred_at gap_dom 150 (-600) (box 50 (-700) 1200 1000)
  /\ 0 - deltaHorizontal strategy == 150
  /\ 0 - deltaVertical strategy == -600
  /\ within_limits 1000 1200 0
  /\ within_limits 800 1000 0
  /\ nextOffsetX (clamp_again gap_dom (Some strategy) dragged_into_gap)
     == nextOffsetX (getDerivedOffset gap_dom (Some strategy) dragged_into_gap).
Proof.
  intros strategy.
  assert (Hbox : box_consistent (box 50 (-700) 1200 1000))
    by (split; reflexivity).
  assert (Hcentred : centred_at gap_dom 150 (-600) (box 50 (-700) 1200 1000))
    by (split; reflexivity).
  assert (HdragX : 0 - deltaHorizontal strategy == 150) by reflexivity.
  assert (HdragY : 0 - deltaVertical strategy == -600) by reflexivity.
  assert (HlimX : within_limits 1000 1200 0)
    by (intros _; split; discriminate).
  assert (HlimY : within_limits 800 1000 0)
    by (intros _; split; discriminate).
  split; [reflexivity |].
  split; [exact Hbox |]. split; [exact Hcentred |].
  split; [exact HdragX |]. split; [exact HdragY |].
  split; [exact HlimX |]. split; [exact HlimY |].
  exact (proj1
           (proj2 (proj2
              (clamp_again_fixed gap_dom _ (Some strategy) dragged_into_gap
                 eq_refl))
              (pointer_at 450 100) eq_refl Hbox Hcentred HdragX HdragY
              HlimX HlimY)).
Defined.

(** C3, as stated, fails.  In [dragged_into_gap] the box leaves a gap of 50
    on the left at offset 150.  Without a strategy the clamp returns
    (100, -100); committed, the box then spans the window, and the clamp
    returns [max(-100, startOffset) = 0] on both axes.  With the strategy
    of a drag that came from offset 160, outside the limits, to 150, the
    clamp returns 100 and then [max(-100, 160 - 10) = 150]. *)
Lemma clamp_again_moves :
  let none := getDerivedOffset gap_dom None dragged_into_gap in
  let none_again := clamp_again gap_dom None dragged_into_gap in
  let from_outside := set_startOffset dragged_into_gap 160 0 in
  let strategy := getMoveStrategy 290 100 300 700 in
  let hinted := getDerivedOffset gap_dom (Some strategy) from_outside in
  let hinted_again := clamp_again gap_dom (Some strategy) from_outside in
  nextOffsetX none == 100 /\ nextOffsetY none == -100
  /\ nextOffsetX none_again == 0 /\ nextOffsetY none_again == 0
  /\ ~ nextOffsetX none_again == nextOffsetX none
  /\ ~ nextOffsetY none_again == nextOffsetY none
  /\ moveHorizontalDirection strategy = horizontalLeft
  /\ startOffsetX from_outside - deltaHorizontal strategy
     == offsetX from_outside
  /\ nextOffsetX hinted == 100
  /\ nextOffsetX hinted_again == 150
  /\ ~ nextOffsetX hinted_again == nextOffsetX hinted.
Proof.
  cbv zeta.
  repeat split; try (vm_compute; reflexivity); vm_compute; discriminate.
Qed.

(** * Further properties of the handlers *)

Lemma step_rotate :
  forall dom props a s,
    rotate (step dom props a s) = rotate s
    \/ rotate (step dom props a s) = (rotate s + 90)%Z
    \/ rotate (step dom props a s) = (rotate s - 90)%Z
    \/ rotate (step dom props a s) = 0%Z.
Proof.
  intros dom props a s.
  destruct a; open_step dom props s;
    first [ left; reflexivity
          | right; left; reflexivity
          | right; right; left; reflexivity
          | right; right; right; reflexivity ].
Qed.

Lemma step_listening_dragging :
  forall dom props a s,
    listening s = dragging s ->
    listening (step dom props a s) = dragging (step dom props a s).
Proof.
  intros dom props a s H.
  destruct a; open_step dom props s; fields; congruence.
Qed.

Lemma run_app :
  forall dom props l1 l2 s,
    run dom props (l1 ++ l2) s = run dom props l2 (run dom props l1 s).
Proof.
  intros. unfold run. apply fold_left_app.
Qed.

Lemma run_cons :
  forall dom props a l s,
    run dom props (a :: l) s = run dom props l (step dom props a s).
Proof.
  reflexivity.
Qed.

(** A property every action keeps is kept by every run. *)
Lemma run_invariant :
  forall dom props (P : State -> Prop),
    (forall a s, P s -> P (step dom props a s)) ->
    forall l s, P s -> P (run dom props l s).
Proof.
  intros dom props P Hstep l. induction l as [|a l IH]; intros s Hs.
  - exact Hs.
  - rewrite run_cons. apply IH. now apply Hstep.
Qed.

(** The same for the actions that pass a test. *)
Lemma run_invariant_on :
  forall dom props (allowed : Action -> bool) (P : State -> Prop),
    (forall a s, allowed a = true -> P s -> P (step dom props a s)) ->
    forall l s, forallb allowed l = true -> P s -> P (run dom props l s).
Proof.
  intros dom props allowed P Hstep l.
  induction l as [|a l IH]; intros s Hall Hs.
  - exact Hs.
  - cbn in Hall. apply andb_true_iff in Hall. destruct Hall as [Ha Hl].
    rewrite run_cons. apply IH; [exact Hl |]. now apply Hstep.
Qed.

(** ** Rotation *)

Lemma rotateClockwise_iter :
  forall dom n s,
    rotate (Nat.iter n (rotateClockwise dom) s)
    = (rotate s + 90 * Z.of_nat n)%Z.
Proof.
  intros dom n s. induction n as [|n IH].
  - cbn. lia.
  - change (Nat.iter (S n) (rotateClockwise dom) s)
      with (rotateClockwise dom (Nat.iter n (rotateClockwise dom) s)).
    unfold rotateClockwise at 1. rewrite derivePreviewStyle_writes.
    fields. rewrite IH. lia.
Qed.

(** X1.  [rotate] counts quarter turns: from a state whose rotation is a
    multiple of 90 every run of actions leaves a multiple of 90; [n]
    clockwise rotations add [90 * n] (four of them 360, with no wrap);
    a clockwise and a counterclockwise rotation undo each other; a
    clockwise rotation leaves scale, exponent and offset alone. *)
Theorem rotate_counts_quarter_turns :
  forall (dom : Dom) (props : Props) (s : State) (k : Z),
    rotate s = (90 * k)%Z ->
    (forall l : list Action,
        exists k' : Z, rotate (run dom props l s) = (90 * k')%Z)
    /\ (forall n : nat,
          rotate (Nat.iter n (rotateClockwise dom) s)
          = (90 * (k + Z.of_nat n))%Z)
    /\ rotate (rotateCounterclockwise dom (rotateClockwise dom s)) = rotate s
    /\ rotate (rotateClockwise dom (rotateCounterclockwise dom s)) = rotate s
    /\ scale (rotateClockwise dom s) = scale s
    /\ scaleExp (rotateClockwise dom s) = scaleExp s
    /\ offsetX (rotateClockwise dom s) = offsetX s
    /\ offsetY (rotateClockwise dom s) = offsetY s.
Proof.
  intros dom props s k Hk.
  split; [| split].
  - intros l.
    apply (run_invariant dom props
             (fun t => exists k' : Z, rotate t = (90 * k')%Z));
      [| now exists k].
    intros a t [k' Hk'].
    destruct (step_rotate dom props a t) as [H | [H | [H | H]]]; rewrite H.
    + now exists k'.
    + exists (k' + 1)%Z. lia.
    + exists (k' - 1)%Z. lia.
    + now exists 0%Z.
  - intros n. rewrite rotateClockwise_iter. lia.
  - unfold rotateCounterclockwise, rotateClockwise.
    rewrite !derivePreviewStyle_writes. fields.
    repeat split; try reflexivity; lia.
Qed.

Lemma rotate_counts_quarter_turns_witness :
  rotate opened = (90 * 0)%Z
  /\ rotate (Nat.iter 4 (rotateClockwise spanning_dom) opened) = 360%Z.
Proof.
  split; [reflexivity |].
  exact (proj1 (proj2 (rotate_counts_quarter_turns spanning_dom all_hooks
                         opened 0 eq_refl)) 4%nat).
Defined.

(** ** The flags of a drag *)

(** X3.  The document listeners are registered exactly while a drag is on:
    [listening] and [dragging] agree after every run from a state where
    they agree.  Out of a drag a mousemove or a mouseup changes nothing; a
    mousedown of another button than the primary one changes nothing; a
    mouseup during a drag ends it and removes the listeners. *)
Theorem drag_flags_agree :
  forall (dom : Dom) (props : Props) (s : State) (l : list Action)
         (e : MouseEvent),
    listening s = dragging s ->
    let t := run dom props l s in
    listening t = dragging t
    /\ (dragging t = false ->
        step dom props (Mousemove e) t = t
        /\ step dom props (Mouseup e) t = t)
    /\ (button e <> 0%Z -> step dom props (Mousedown e) t = t)
    /\ (dragging t = true ->
        dragging (step dom props (Mouseup e) t) = false
        /\ listening (step dom props (Mouseup e) t) = false).
Proof.
  intros dom props s l e Hs t.
  assert (Ht : listening t = dragging t).
  { apply (run_invariant dom props (fun t => listening t = dragging t));
      [| exact Hs].
    intros a u. apply step_listening_dragging. }
  split; [exact Ht |]. split; [| split].
  - intros Hd. cbn [step]. rewrite Ht, Hd. now split.
  - intros Hb. cbn [step]. unfold handlePreviewMousedown.
    destruct (button e =? 0)%Z eqn:E; [| reflexivity].
    apply Z.eqb_eq in E. contradiction.
  - intros Hd. cbn [step]. rewrite Ht, Hd. unfold handleMouseUp.
    rewrite derivePreviewStyle_writes. fields. now split.
Qed.

Lemma drag_flags_agree_witness :
  listening opened = dragging opened
  /\ step spanning_dom all_hooks (Mouseup (pointer_at 5 5))
       (run spanning_dom all_hooks [ClickZoomIn; Frame] opened)
     = run spanning_dom all_hooks [ClickZoomIn; Frame] opened.
Proof.
  split; [reflexivity |].
  apply (drag_flags_agree spanning_dom all_hooks opened [ClickZoomIn; Frame]
           (pointer_at 5 5) eq_refl).
  reflexivity.
Defined.

(** ** Frames *)

(** Mouse moves during a drag write the offsets and request a frame; the
    style and everything else stay. *)
Lemma mousemoves_effect :
  forall dom props (moves : list MouseEvent) (last : MouseEvent) (s : State),
    listening s = true ->
    run dom props (mousemoves (moves ++ [last])) s
    = set_frameRequested
        (set_offset s (clientX last - startX s) (clientY last - startY s))
        true.
Proof.
  intros dom props moves.
  induction moves as [|m moves IH]; intros last s Hl.
  - cbn [app mousemoves map]. rewrite run_cons. cbn [run fold_left step].
    rewrite Hl. reflexivity.
  - cbn [app mousemoves map]. rewrite run_cons.
    change (map Mousemove (moves ++ [last]))
      with (mousemoves (moves ++ [last])).
    rewrite IH by (cbn [step]; rewrite Hl; exact Hl).
    cbn [step]. rewrite Hl. reflexivity.
Qed.

(** X4.  Mouse moves are drawn once per frame: any number of mousemoves
    during a drag leave the style as it was and a frame requested; the
    frame writes the style of the last pointer position only, and clears
    the request, so that a second frame does nothing. *)
Theorem frame_draws_latest_move_once :
  forall (dom : Dom) (props : Props) (preview : PreviewEl)
         (moves : list MouseEvent) (last : MouseEvent) (s : State),
    previewRef dom = Some preview ->
    listening s = true ->
    let moved := run dom props (mousemoves (moves ++ [last])) s in
    let drawn := step dom props Frame moved in
    cssText moved = cssText s
    /\ frameRequested moved = true
    /\ cssText drawn
       = Some {| translateX := clientX last - startX s;
                 translateY := clientY last - startY s;
                 rotateDeg := rotate s;
                 scaleFactor := scale s;
                 cursor := if dragging s then grabbing else grab;
                 transitionNone := dragging s |}
    /\ frameRequested drawn = false
    /\ step dom props Frame drawn = drawn.
Proof.
  intros dom props preview moves last s mounted Hl moved drawn.
  subst drawn moved. rewrite (mousemoves_effect dom props moves last s Hl).
  cbn [step]. unfold handleFrame. fields.
  rewrite derivePreviewStyle_writes. unfold derived_style. rewrite mounted.
  fields. repeat split; try reflexivity.
  destruct (dragging s); reflexivity.
Qed.

Lemma frame_draws_latest_move_once_witness :
  let s := handlePreviewMousedown spanning_dom (pointer_at 300 200) opened in
  previewRef spanning_dom
  = Some (still_image 2000 1600 (box (-150) (-100) 1200 1000))
  /\ listening s = true
  /\ frameRequested
       (step spanning_dom all_hooks Frame
          (run spanning_dom all_hooks
             (mousemoves ([pointer_at 310 190] ++ [pointer_at 900 700])) s))
     = false.
Proof.
  intros s. split; [reflexivity |]. split; [reflexivity |].
  apply (frame_draws_latest_move_once spanning_dom all_hooks _
           [pointer_at 310 190] (pointer_at 900 700) s eq_refl eq_refl).
Defined.

(** ** Without a mounted preview *)

Lemma step_cssText_unmounted :
  forall dom props a s,
    previewRef dom = None ->
    cssText (step dom props a s) = cssText s.
Proof.
  intros dom props a s Hnone.
  destruct a; open_step dom props s; unfold derived_style;
    rewrite ?Hnone; reflexivity.
Qed.

(** X6.  Without a mounted preview nothing is drawn and nothing is
    measured: no run of actions changes the style, [getMaxScale] and
    [getOrignalImageSizeScale] are 1, [getDerivedOffset] is (0, 0), and so
    a mouseup during a drag and a [zoomOut] that acts set the offset to
    (0, 0). *)
Theorem nothing_is_drawn_without_preview :
  forall (dom : Dom) (props : Props) (s : State),
    previewRef dom = None ->
    (forall l : list Action, cssText (run dom props l s) = cssText s)
    /\ getMaxScale dom = Fin 1
    /\ getOrignalImageSizeScale dom = Fin 1
    /\ (forall moveStrategy,
          getDerivedOffset dom moveStrategy s
          = {| nextOffsetX := 0; nextOffsetY := 0 |})
    /\ (forall e : MouseEvent,
          listening s = true ->
          offsetX (step dom props (Mouseup e) s) = 0
          /\ offsetY (step dom props (Mouseup e) s) = 0)
    /\ (gtb (scale s) (Fin (1 # 2)) = true ->
        offsetX (zoomOut dom s) = 0 /\ offsetY (zoomOut dom s) = 0).
Proof.
  intros dom props s Hnone.
  split; [| split; [| split; [| split; [| split]]]].
  - intros l.
    apply (run_invariant dom props (fun t => cssText t = cssText s));
      [| reflexivity].
    intros a t Ht. now rewrite step_cssText_unmounted.
  - unfold getMaxScale. now rewrite Hnone.
  - unfold getOrignalImageSizeScale. now rewrite Hnone.
  - intros moveStrategy. unfold getDerivedOffset. now rewrite Hnone.
  - intros e Hl. cbn [step]. rewrite Hl. unfold handleMouseUp.
    rewrite derivePreviewStyle_writes. unfold getDerivedOffset.
    rewrite Hnone. fields. now split.
  - intros Hgt. unfold zoomOut. rewrite Hgt.
    rewrite !derivePreviewStyle_writes. unfold getDerivedOffset.
    rewrite Hnone. fields. now split.
Qed.

Lemma nothing_is_drawn_without_preview_witness :
  previewRef empty_dom = None
  /\ cssText
       (run empty_dom all_hooks
          [ClickZoomOut; ClickRotateClockwise; Mousedown (pointer_at 1 1)]
          opened)
     = cssText opened.
Proof.
  split; [reflexivity |].
  apply (nothing_is_drawn_without_preview empty_dom all_hooks opened eq_refl).
Defined.

(** ** The release of a drag *)

(** One axis for a box that is the centred one moved by the target. *)
Lemma clamp_axis_centred :
  forall viewport lo hi size towards_end target,
    hi == lo + size ->
    lo == (viewport - size) / 2 + target ->
    clamp_axis viewport lo hi size towards_end target
    == if Qle_bool size viewport then 0
       else clamp_to ((size - viewport) / 2) target.
Proof.
  intros viewport lo hi size towards_end target Hhi Hlo.
  unfold clamp_axis, clamp_to.
  destruct (Qle_bool size viewport) eqn:Hfit; [reflexivity |].
  destruct (Qlt_bool 0 lo) eqn:Hgap; qprop; [qminmax; qlra |].
  destruct (Qlt_bool hi viewport) eqn:Hgap'; qprop; [qminmax; qlra |].
  destruct towards_end; qminmax; qlra.
Qed.

Lemma handleMouseUp_offset :
  forall dom e s,
    let strategy :=
      getMoveStrategy (clientX e) (clientY e)
        (mouseDownClientX s) (mouseDownClientY s) in
    offsetX (handleMouseUp dom e s)
    = nextOffsetX (getDerivedOffset dom (Some strategy) s)
    /\ offsetY (handleMouseUp dom e s)
       = nextOffsetY (getDerivedOffset dom (Some strategy) s).
Proof.
  intros dom e s strategy. unfold handleMouseUp.
  rewrite derivePreviewStyle_writes. fields.
  unfold getDerivedOffset. destruct (previewRef dom); split; reflexivity.
Qed.

Lemma handleMouseUp_clamps :
  forall (dom : Dom) (preview : PreviewEl) (up : MouseEvent) (s : State),
    previewRef dom = Some preview ->
    let pbox := getBoundingClientRect preview (cssText s) in
    let targetX := startOffsetX s - (mouseDownClientX s - clientX up) in
    let targetY := startOffsetY s - (mouseDownClientY s - clientY up) in
    box_consistent pbox ->
    centred_at dom targetX targetY pbox ->
    let released := handleMouseUp dom up s in
    offsetX released
    == (if Qle_bool (width pbox) (innerWidth dom) then 0
        else clamp_to ((width pbox - innerWidth dom) / 2) targetX)
    /\ offsetY released
       == (if Qle_bool (height pbox) (innerHeight dom) then 0
           else clamp_to ((height pbox - innerHeight dom) / 2) targetY)
    /\ dragging released = false
    /\ listening released = false
    /\ cssText released
       = Some {| translateX := offsetX released;
                 translateY := offsetY released;
                 rotateDeg := rotate s;
                 scaleFactor := scale s;
                 cursor := grab;
                 transitionNone := false |}.
Proof.
  intros dom preview up s mounted pbox targetX targetY
    [Hright Hbottom] [Hleft Htop] released.
  destruct (handleMouseUp_offset dom up s) as [HX HY].
  destruct (getDerivedOffset_axes dom preview
              (Some (getMoveStrategy (clientX up) (clientY up)
                       (mouseDownClientX s) (mouseDownClientY s)))
              s mounted) as [AX AY].
  fold pbox in AX, AY. cbn [option_map nullish] in AX, AY.
  split; [| split; [| split; [| split]]].
  - unfold released. rewrite HX, AX. now apply clamp_axis_centred.
  - unfold released. rewrite HY, AY. now apply clamp_axis_centred.
  - unfold released, handleMouseUp. rewrite derivePreviewStyle_writes.
    reflexivity.
  - unfold released, handleMouseUp. rewrite derivePreviewStyle_writes.
    reflexivity.
  - unfold released, handleMouseUp. rewrite derivePreviewStyle_writes.
    unfold derived_style. rewrite mounted. reflexivity.
Qed.

(** X2.  The release of a drag: for a box whose right and bottom edges are
    where its size puts them and which is the centred one moved by the
    target [startOffset - (mouseDown - mouseUp)], [handleMouseUp] commits
    0 on an axis where the box fits the viewport and otherwise the target
    brought into [-(size - viewport) / 2, (size - viewport) / 2]; it ends
    the drag, removes the listeners and writes the committed offset to the
    style with the grab cursor and the transition on. *)
Theorem mouseup_clamps_into_limits :
  forall (dom : Dom) (preview : PreviewEl) (up : MouseEvent) (s : State),
    previewRef dom = Some preview ->
    let pbox := getBoundingClientRect preview (cssText s) in
    let targetX := startOffsetX s - (mouseDownClientX s - clientX up) in
    let targetY := startOffsetY s - (mouseDownClientY s - clientY up) in
    box_consistent pbox ->
    centred_at dom targetX targetY pbox ->
    let released := handleMouseUp dom up s in
    offsetX released
    == (if Qle_bool (width pbox) (innerWidth dom) then 0
        else clamp_to ((width pbox - innerWidth dom) / 2) targetX)
    /\ offsetY released
       == (if Qle_bool (height pbox) (innerHeight dom) then 0
           else clamp_to ((height pbox - innerHeight dom) / 2) targetY)
    /\ dragging released = false
    /\ listening released = false
    /\ cssText released
       = Some {| translateX := offsetX released;
                 translateY := offsetY released;
                 rotateDeg := rotate s;
                 scaleFactor := scale s;
                 cursor := grab;
                 transitionNone := false |}.
Proof.
  intros dom preview up s mounted pbox targetX targetY Hbox Hcentred.
  now apply handleMouseUp_clamps.
Qed.

Lemma mouseup_clamps_into_limits_witness :
  previewRef gap_dom
  = Some (still_image 2000 1600 (box 50 (-700) 1200 1000))
  /\ box_consistent (box 50 (-700) 1200 1000)
  /\ centred_at gap_dom (0 - (300 - 450)) (0 - (700 - 100))
       (box 50 (-700) 1200 1000)
  /\ offsetX (handleMouseUp gap_dom (pointer_at 450 100) dragged_into_gap)
     == clamp_to ((1200 - 1000) / 2) (0 - (300 - 450)).
Proof.
  assert (Hbox : box_consistent (box 50 (-700) 1200 1000))
    by (split; reflexivity).
  assert (Hcentred : centred_at gap_dom (0 - (300 - 450)) (0 - (700 - 100))
                       (box 50 (-700) 1200 1000))
    by (split; reflexivity).
  split; [reflexivity |]. split; [exact Hbox |]. split; [exact Hcentred |].
  exact (proj1 (mouseup_clamps_into_limits gap_dom _ (pointer_at 450 100)
                  dragged_into_gap eq_refl Hbox Hcentred)).
Defined.

(** ** Other actions in the middle of a drag *)

Lemma step_keeps_drag_anchor :
  forall dom props a s,
    keeps_drag a = true ->
    listening s = true ->
    listening (step dom props a s) = true
    /\ startX (step dom props a s) = startX s
    /\ startY (step dom props a s) = startY s.
Proof.
  intros dom props a s Ha Hl.
  destruct a; try discriminate Ha; open_step dom props s; fields;
    repeat split; try reflexivity; try assumption; congruence.
Qed.

(** X15.  Other actions in the middle of a drag do not break the tracking:
    after a primary mousedown and any actions other than a mousedown or a
    mouseup (zooming by key or button, rotating, resizing, ...), the next
    mousemove again puts the offset at the pointer's position minus its
    position at the mousedown plus the offset at the mousedown. *)
Theorem pointer_is_followed_across_other_actions :
  forall (dom : Dom) (props : Props) (s : State) (down move : MouseEvent)
         (between : list Action),
    button down = 0%Z ->
    forallb keeps_drag between = true ->
    let moved :=
      step dom props (Mousemove move)
        (run dom props between (handlePreviewMousedown dom down s)) in
    offsetX moved == clientX move - clientX down + offsetX s
    /\ offsetY moved == clientY move - clientY down + offsetY s.
Proof.
  intros dom props s down move between Hdown Hbetween moved.
  set (s0 := handlePreviewMousedown dom down s).
  assert (H0 : listening s0 = true
               /\ startX s0 = clientX down - offsetX s
               /\ startY s0 = clientY down - offsetY s).
  { unfold s0, handlePreviewMousedown. rewrite Hdown.
    cbn [Z.eqb negb]. rewrite derivePreviewStyle_writes.
    repeat split; reflexivity. }
  assert (H : listening (run dom props between s0) = true
              /\ startX (run dom props between s0) = clientX down - offsetX s
              /\ startY (run dom props between s0) = clientY down - offsetY s).
  { apply (run_invariant_on dom props keeps_drag
             (fun t => listening t = true
                       /\ startX t = clientX down - offsetX s
                       /\ startY t = clientY down - offsetY s));
      [| exact Hbetween | exact H0].
    intros a t Ha (Hl & Hx & Hy).
    destruct (step_keeps_drag_anchor dom props a t Ha Hl) as (Hl' & Hx' & Hy').
    rewrite Hx', Hy'. now repeat split. }
  destruct H as (Hl & Hx & Hy).
  unfold moved. cbn [step]. fold s0. rewrite Hl. unfold handleMouseMove.
  fields. rewrite Hx, Hy. split; ring.
Qed.

Lemma pointer_is_followed_across_other_actions_witness :
  button (pointer_at 300 200) = 0%Z
  /\ forallb keeps_drag [ClickZoomOut; Keydown "ArrowUp"; ClickResizeToOriginalSize]
     = true
  /\ offsetX
       (step spanning_dom all_hooks (Mousemove (pointer_at 320 180))
          (run spanning_dom all_hooks
             [ClickZoomOut; Keydown "ArrowUp"; ClickResizeToOriginalSize]
             (handlePreviewMousedown spanning_dom (pointer_at 300 200) opened)))
     == 320 - 300 + 0.
Proof.
  split; [reflexivity |]. split; [reflexivity |].
  apply (pointer_is_followed_across_other_actions spanning_dom all_hooks
           opened (pointer_at 300 200) (pointer_at 320 180)
           [ClickZoomOut; Keydown "ArrowUp"; ClickResizeToOriginalSize]
           eq_refl eq_refl).
Defined.

(** ** The style on the element *)

Lemma derived_style_mounted :
  forall dom preview s,
    previewRef dom = Some preview ->
    derived_style dom true s = Some (written_style s).
Proof.
  intros dom preview s mounted. unfold derived_style, written_style.
  rewrite mounted. destruct (dragging s); reflexivity.
Qed.

Lemma step_style_settled :
  forall dom props preview a s,
    previewRef dom = Some preview ->
    resets_without_redraw a = false ->
    style_settled s ->
    style_settled (step dom props a s).
Proof.
  intros dom props preview a s mounted Ha Hs.
  unfold style_settled in *.
  destruct a; try discriminate Ha; open_step dom props s;
    rewrite ?(derived_style_mounted dom preview) by exact mounted;
    unfold written_style in *; fields;
    first
      [ exact Hs
      | right; left; reflexivity
      | right; right; reflexivity
      | destruct Hs as [H | [H | H]];
        first
          [ discriminate H
          | left; exact H
          | right; left; exact H
          | right; right; exact H ] ].
Qed.

(** X5.  What is on the element follows the state: with a mounted preview,
    along every run without a switch of image or the after-leave reset,
    either nothing was drawn yet, or the style on the element is the one
    the state describes (offset, rotation, scale, cursor and
    [transition: none] exactly while dragging), or a frame is pending.  So
    whenever no frame is pending the style drawn is up to date. *)
Theorem style_follows_state :
  forall (dom : Dom) (props : Props) (preview : PreviewEl) (s : State)
         (l : list Action),
    previewRef dom = Some preview ->
    style_settled s ->
    forallb (fun a => negb (resets_without_redraw a)) l = true ->
    let t := run dom props l s in
    style_settled t
    /\ (frameRequested t = false ->
        cssText t = None \/ cssText t = Some (written_style t)).
Proof.
  intros dom props preview s l mounted Hs Hl t.
  assert (Ht : style_settled t).
  { apply (run_invariant_on dom props
             (fun a => negb (resets_without_redraw a)) style_settled);
      trivial.
    intros a u Ha. apply negb_true_iff in Ha.
    now apply (step_style_settled dom props preview). }
  split; [exact Ht |].
  intros Hf. destruct Ht as [H | [H | H]]; [now left | now right |].
  congruence.
Qed.

Lemma style_follows_state_witness :
  previewRef spanning_dom
  = Some (still_image 2000 1600 (box (-150) (-100) 1200 1000))
  /\ style_settled opened
  /\ style_settled
       (run spanning_dom all_hooks
          [ClickZoomIn; Mousedown (pointer_at 3 4); Mousemove (pointer_at 9 9);
           Frame; Mouseup (pointer_at 9 9); ClickZoomOut]
          opened).
Proof.
  assert (Hs : style_settled opened) by (left; reflexivity).
  split; [reflexivity |]. split; [exact Hs |].
  exact (proj1 (style_follows_state spanning_dom all_hooks _ opened
                  [ClickZoomIn; Mousedown (pointer_at 3 4);
                   Mousemove (pointer_at 9 9); Frame;
                   Mouseup (pointer_at 9 9); ClickZoomOut]
                  eq_refl Hs eq_refl)).
Defined.

(** ** The steps of [zoomOut] *)

(** X7.  The steps of [zoomOut] from a finite scale above 0.5 at an integer
    exponent [e], with a mounted preview: the box is measured with the
    candidate scale [max(0.5, 1.5 ^ (e - 1))] and the old offset on the
    element, transition off; the offset committed is the clamp's for that
    box; the exponent ends at [e - 1]; and the style left on the element is
    the one the final state describes, whatever the scale that adding and
    subtracting the difference leaves. *)
Theorem zoomOut_measures_at_candidate_scale :
  forall (dom : Dom) (preview : PreviewEl) (s : State) (q : Q) (e : Z),
    previewRef dom = Some preview ->
    scale s = Fin q ->
    scaleExp s = Fin e ->
    (1 # 2) < q ->
    let candidate := Qmax (1 # 2) (scaleRadix ^ (e - 1)) in
    let measured := zoomOut_measuring dom s in
    let zoomed := zoomOut dom s in
    cssText measured
    = Some {| translateX := offsetX s;
              translateY := offsetY s;
              rotateDeg := rotate s;
              scaleFactor := Fin candidate;
              cursor := if dragging s then grabbing else grab;
              transitionNone := true |}
    /\ offsetX zoomed = nextOffsetX (getDerivedOffset dom None measured)
    /\ offsetY zoomed = nextOffsetY (getDerivedOffset dom None measured)
    /\ scaleExp zoomed = Fin (e - 1)%Z
    /\ cssText zoomed = Some (written_style zoomed).
Proof.
  intros dom preview s q e mounted Hq He Hhalf candidate measured zoomed.
  assert (Hgt : gtb (scale s) (Fin (1 # 2)) = true).
  { rewrite Hq. cbn. now apply Qlt_bool_iff. }
  destruct (zoomOut_offset dom s Hgt) as [HX HY].
  destruct (zoomOut_acts dom s Hgt) as [Hs Hexp].
  split; [| split; [| split; [| split]]].
  - unfold measured, zoomOut_measuring. rewrite derivePreviewStyle_writes.
    unfold derived_style. rewrite mounted. fields. rewrite He. cbn [pred pow max].
    destruct (dragging s); reflexivity.
  - exact HX.
  - exact HY.
  - unfold zoomed. rewrite Hexp, He. reflexivity.
  - unfold zoomed, zoomOut. rewrite Hgt.
    rewrite !derivePreviewStyle_writes.
    rewrite (derived_style_mounted dom preview) by exact mounted.
    unfold written_style. fields. reflexivity.
Qed.

(** In [spanning_dom] from the untouched preview: the box measured at the
    candidate scale spans the window, and the offset committed is the
    clamp's, (0, 0). *)
Lemma zoomOut_measures_at_candidate_scale_witness :
  previewRef spanning_dom
  = Some (still_image 2000 1600 (box (-150) (-100) 1200 1000))
  /\ scale opened = Fin 1
  /\ scaleExp opened = Fin 0%Z
  /\ (1 # 2) < 1
  /\ offsetX (zoomOut spanning_dom opened)
     = nextOffsetX
         (getDerivedOffset spanning_dom None
            (zoomOut_measuring spanning_dom opened))
  /\ scaleExp (zoomOut spanning_dom opened) = Fin (0 - 1)%Z.
Proof.
  assert (Hhalf : (1 # 2) < 1) by reflexivity.
  pose proof (zoomOut_measures_at_candidate_scale spanning_dom _ opened 1 0
                eq_refl eq_refl eq_refl Hhalf) as H.
  split; [reflexivity |]. split; [reflexivity |]. split; [reflexivity |].
  split; [exact Hhalf |].
  split; [exact (proj1 (proj2 H)) |].
  exact (proj1 (proj2 (proj2 (proj2 H)))).
Defined.

(** ** Switching and hiding *)

(** X14.  The switch buttons and the after-leave hook reset scale to 1,
    exponent to 0 and rotation to 0, but keep the offset, the offset of the
    last drag start and the drag flag, and do not touch the style on the
    element; the switch calls its hook once when it was passed, and the
    after-leave hook clears [displayed]. *)
Theorem resets_keep_offset_and_style :
  forall (props : Props) (s : State),
    let kept (t : State) :=
      offsetX t = offsetX s /\ offsetY t = offsetY s
      /\ startOffsetX t = startOffsetX s /\ startOffsetY t = startOffsetY s
      /\ cssText t = cssText s /\ dragging t = dragging s in
    let reset (t : State) :=
      scale t = Fin 1 /\ scaleExp t = Fin 0%Z /\ rotate t = 0%Z in
    (reset (handleSwitchPrev props s) /\ kept (handleSwitchPrev props s)
     /\ calls (handleSwitchPrev props s)
        = calls s ++ (if onPrev props then [call_onPrev] else []))
    /\ (reset (handleSwitchNext props s) /\ kept (handleSwitchNext props s)
        /\ calls (handleSwitchNext props s)
           = calls s ++ (if onNext props then [call_onNext] else []))
    /\ (reset (handleAfterLeave s) /\ kept (handleAfterLeave s)
        /\ calls (handleAfterLeave s) = calls s
        /\ displayed (handleAfterLeave s) = false).
Proof.
  intros props s kept reset. subst kept reset. cbv beta.
  unfold handleSwitchPrev, handleSwitchNext, handleAfterLeave, resetScale,
    emit_if.
  destruct (onPrev props), (onNext props); fields;
    rewrite ?app_nil_r; repeat split; reflexivity.
Qed.

(** ** Closing *)

Lemma close_effect :
  forall props s,
    mergedShow props s = true ->
    close props s
    = set_uncontrolledShow
        (set_displayed
           (set_uncontrolledShow
              (fold_left emit (close_calls props) s) false) true) false.
Proof.
  intros props s Hshow. unfold close, doUpdateShow, emit_if, close_calls.
  rewrite Hshow.
  destruct (onClose props), (onUpdateShow props), (onUpdate_show props);
    cbn [app fold_left]; try reflexivity;
    destruct s; reflexivity.
Qed.

Lemma fold_emit_calls :
  forall (l : list Call) (s : State),
    calls (fold_left emit l s) = calls s ++ l.
Proof.
  induction l as [|c l IH]; intros s; cbn [fold_left].
  - now rewrite app_nil_r.
  - rewrite IH. cbn [calls emit]. now rewrite <- app_assoc.
Qed.

Lemma fold_emit_transform :
  forall (l : list Call) (s : State),
    scale (fold_left emit l s) = scale s
    /\ scaleExp (fold_left emit l s) = scaleExp s
    /\ rotate (fold_left emit l s) = rotate s
    /\ offsetX (fold_left emit l s) = offsetX s
    /\ offsetY (fold_left emit l s) = offsetY s
    /\ cssText (fold_left emit l s) = cssText s.
Proof.
  induction l as [|c l IH]; intros s; cbn [fold_left].
  - repeat split; reflexivity.
  - destruct (IH (emit s c)) as (H1 & H2 & H3 & H4 & H5 & H6).
    rewrite H1, H2, H3, H4, H5, H6. repeat split; reflexivity.
Qed.

(** X13.  [close] on a shown preview calls [onClose], [onUpdateShow(false)]
    and [onUpdate:show(false)], those that were passed and in this order,
    leaves [displayed] set and the transform, offset and style untouched.
    Uncontrolled ([show] not passed) the preview is then hidden and a second
    [close], by the button or by Escape, does nothing; controlled with
    [show = true] it stays shown until the parent changes the prop, and a
    second [close] makes the calls again. *)
Theorem close_hides_once_when_uncontrolled :
  forall (dom : Dom) (props : Props) (s : State),
    mergedShow props s = true ->
    let closed := close props s in
    calls closed = calls s ++ close_calls props
    /\ displayed closed = true
    /\ scale closed = scale s /\ scaleExp closed = scaleExp s
    /\ rotate closed = rotate s
    /\ offsetX closed = offsetX s /\ offsetY closed = offsetY s
    /\ cssText closed = cssText s
    /\ (show props = None ->
        mergedShow props closed = false
        /\ close props closed = closed
        /\ handleKeydown dom props "Escape" closed = closed)
    /\ (show props = Some true ->
        mergedShow props closed = true
        /\ calls (close props closed)
           = calls s ++ close_calls props ++ close_calls props).
Proof.
  intros dom props s Hshow closed.
  assert (Hc : closed
               = set_uncontrolledShow
                   (set_displayed
                      (set_uncontrolledShow
                         (fold_left emit (close_calls props) s) false) true)
                   false)
    by now apply close_effect.
  destruct (fold_emit_transform (close_calls props) s)
    as (H1 & H2 & H3 & H4 & H5 & H6).
  pose proof (fold_emit_calls (close_calls props) s) as Hcalls.
  rewrite Hc. fields.
  repeat (split; [assumption || reflexivity |]).
  split.
  - intros Hnone.
    assert (Hhidden : mergedShow props
                        (set_uncontrolledShow
                           (set_displayed
                              (set_uncontrolledShow
                                 (fold_left emit (close_calls props) s) false)
                              true) false) = false).
    { unfold mergedShow. rewrite Hnone. reflexivity. }
    split; [exact Hhidden |].
    split.
    + unfold close. now rewrite Hhidden.
    + unfold handleKeydown. cbn [String.eqb Ascii.eqb Bool.eqb andb].
      unfold close. now rewrite Hhidden.
  - intros Hsome.
    assert (Hshown : mergedShow props
                       (set_uncontrolledShow
                          (set_displayed
                             (set_uncontrolledShow
                                (fold_left emit (close_calls props) s) false)
                             true) false) = true).
    { unfold mergedShow. rewrite Hsome. reflexivity. }
    split; [exact Hshown |].
    rewrite (close_effect props _ Hshown). fields.
    rewrite fold_emit_calls. fields. rewrite Hcalls.
    now rewrite app_assoc.
Qed.

Lemma close_hides_once_when_uncontrolled_witness :
  mergedShow all_hooks opened = true
  /\ show all_hooks = None
  /\ calls (close all_hooks opened)
     = [call_onClose; call_onUpdateShow false; call_onUpdate_show false]
  /\ close all_hooks (close all_hooks opened) = close all_hooks opened.
Proof.
  split; [reflexivity |]. split; [reflexivity |].
  split.
  - exact (proj1 (close_hides_once_when_uncontrolled spanning_dom all_hooks
                    opened eq_refl)).
  - apply (close_hides_once_when_uncontrolled spanning_dom all_hooks opened
             eq_refl).
    reflexivity.
Defined.

(** ** The keyboard *)

(** X17.  The keys do what the buttons do: ArrowUp and ArrowDown are
    [zoomIn] and [zoomOut] with one [preventDefault] recorded, Escape is
    [close], the space bar only records [preventDefault], and a key other
    than these and the two arrows of the switch changes nothing. *)
Theorem keys_act_like_buttons :
  forall (dom : Dom) (props : Props) (s : State),
    handleKeydown dom props "ArrowUp" s
    = emit (zoomIn dom s) call_preventDefault
    /\ handleKeydown dom props "ArrowDown" s
       = emit (zoomOut dom s) call_preventDefault
    /\ handleKeydown dom props "Escape" s = close props s
    /\ handleKeydown dom props " " s = emit s call_preventDefault
    /\ (forall key : string,
          ~ In key [" "; "ArrowLeft"; "ArrowRight"; "ArrowUp"; "ArrowDown";
                    "Escape"]%string ->
          handleKeydown dom props key s = s).
Proof.
  intros dom props s.
  split; [| split; [| split; [| split]]].
  - unfold handleKeydown. cbn [String.eqb Ascii.eqb Bool.eqb andb].
    apply zoomIn_after_emit.
  - unfold handleKeydown. cbn [String.eqb Ascii.eqb Bool.eqb andb].
    apply zoomOut_after_emit.
  - reflexivity.
  - reflexivity.
  - intros key Hkey. unfold handleKeydown.
    repeat match goal with
      | |- context [(key =? ?k)%string] =>
          destruct (String.eqb_spec key k) as [-> | _];
          [exfalso; apply Hkey; cbn; tauto |]
      end.
    reflexivity.
Qed.

Lemma keys_act_like_buttons_witness :
  ~ In "Enter"%string
      [" "; "ArrowLeft"; "ArrowRight"; "ArrowUp"; "ArrowDown"; "Escape"]%string
  /\ handleKeydown spanning_dom all_hooks "Enter" opened = opened.
Proof.
  assert (H : ~ In "Enter"%string
                [" "; "ArrowLeft"; "ArrowRight"; "ArrowUp"; "ArrowDown";
                 "Escape"]%string).
  { cbn. intros [E | [E | [E | [E | [E | [E | []]]]]]]; discriminate E. }
  split; [exact H |].
  now apply (keys_act_like_buttons spanning_dom all_hooks opened).
Defined.

(** ** The original size and the maximum *)

Lemma original_size_and_max :
  forall (dom : Dom) (preview : PreviewEl),
    previewRef dom = Some preview ->
    viewport_exceeds_bleeding dom ->
    exists q m : Q,
      getOrignalImageSizeScale dom = Fin q
      /\ getMaxScale dom = Fin m
      /\ 1 <= q
      /\ 3 <= m
      /\ 2 * q <= m.
Proof.
  intros dom preview mounted [HW HH].
  assert (Hdiff : viewport_differs_from_bleeding dom).
  { split; intro E; rewrite E in *; lra. }
  rewrite (getOrignalImageSizeScale_value dom preview mounted Hdiff).
  rewrite (getMaxScale_value dom preview mounted Hdiff).
  generalize (naturalHeight preview / (innerHeight dom - BLEEDING))
             (naturalWidth preview / (innerWidth dom - BLEEDING)).
  intros h w. do 2 eexists. split; [reflexivity |]. split; [reflexivity |].
  destruct (Qlt_bool h 1) eqn:Eh; destruct (Qlt_bool w 1) eqn:Ew;
    cbn [andb]; qprop; repeat split; qminmax; lra.
Qed.

(** X11.  With a mounted preview in a viewport wider and higher than
    [BLEEDING], the original-size scale is at least 1, the maximum scale is
    at least 3, and the maximum is at least twice the original size: at
    the original size there is always room to zoom in. *)
Theorem original_size_leaves_room_to_zoom :
  forall (dom : Dom) (preview : PreviewEl),
    previewRef dom = Some preview ->
    viewport_exceeds_bleeding dom ->
    exists q m : Q,
      getOrignalImageSizeScale dom = Fin q
      /\ getMaxScale dom = Fin m
      /\ 1 <= q
      /\ 3 <= m
      /\ 2 * q <= m.
Proof.
  intros dom preview mounted Hdom.
  exact (original_size_and_max dom preview mounted Hdom).
Qed.

Lemma original_size_leaves_room_to_zoom_witness :
  previewRef spanning_dom
  = Some (still_image 2000 1600 (box (-150) (-100) 1200 1000))
  /\ viewport_exceeds_bleeding spanning_dom
  /\ exists q m : Q,
       getOrignalImageSizeScale spanning_dom = Fin q
       /\ getMaxScale spanning_dom = Fin m
       /\ 1 <= q /\ 3 <= m /\ 2 * q <= m.
Proof.
  assert (Hdom : viewport_exceeds_bleeding spanning_dom)
    by (split; reflexivity).
  split; [reflexivity |]. split; [exact Hdom |].
  exact (original_size_leaves_room_to_zoom spanning_dom _ eq_refl Hdom).
Defined.

(** ** The zoom ladder *)

Lemma radix_power_below_half :
  forall e : Z, (e <= -2)%Z -> scaleRadix ^ e < 1 # 2.
Proof.
  intros e He.
  apply Qle_lt_trans with (scaleRadix ^ (-2)); [| reflexivity].
  apply Qpower_le_compat_l; [exact He | discriminate].
Qed.

Lemma radix_power_grows :
  forall e : Z, scaleRadix ^ (e - 1) < scaleRadix ^ e.
Proof.
  intros e. apply Qpower_lt_compat_l; [lia | reflexivity].
Qed.

Lemma untouched_on_ladder :
  forall dom (s t : State),
    scale t = scale s /\ scaleExp t = scaleExp s ->
    on_ladder dom s -> on_ladder dom t.
Proof.
  intros dom s t [Hs He] (e & q & m & H). exists e, q, m.
  now rewrite Hs, He.
Qed.

Lemma reset_on_ladder :
  forall dom (t : State),
    viewport_exceeds_bleeding dom ->
    scale t = Fin 1 -> scaleExp t = Fin 0%Z -> on_ladder dom t.
Proof.
  intros dom t Hdom Hs He.
  destruct (getMaxScale_at_least_one dom Hdom) as (m & Hm & Hone).
  exists 0%Z, 1, m. repeat split; trivial; try lia.
  - apply Qlt_le_trans with 1; [reflexivity | exact Hone].
  - change (scaleRadix ^ 0) with 1. qminmax; lra.
Qed.

Lemma zoomIn_on_ladder :
  forall dom s,
    viewport_exceeds_bleeding dom ->
    on_ladder dom s -> on_ladder dom (zoomIn dom s).
Proof.
  intros dom s Hdom (e & q & m & He & Hq & Hm & Hlow & Hbelow & Hclamp).
  destruct (getMaxScale_at_least_one dom Hdom) as (m' & Hm' & Hone).
  assert (m' = m) by congruence. subst m'.
  destruct (ltb (scale s) (getMaxScale dom)) eqn:Hlt.
  - destruct (zoomIn_acts dom s Hlt) as [Hs Hexp].
    rewrite Hq, Hm in Hlt. cbn in Hlt. apply Qlt_bool_iff in Hlt.
    pose proof (radix_power_at_least_half e Hlow) as Hup.
    exists (e + 1)%Z, (Qmin m (scaleRadix ^ (e + 1))), m.
    split; [now rewrite Hexp, He |].
    split; [now rewrite Hs, Hm, He |].
    split; [exact Hm |]. split; [lia |].
    replace (e + 1 - 1)%Z with e by lia.
    split; [revert Hclamp Hlt; qminmax; lra |].
    revert Hup. qminmax; lra.
  - rewrite (zoomIn_idle dom s Hlt). now exists e, q, m.
Qed.

Lemma zoomOut_on_ladder :
  forall dom s,
    viewport_exceeds_bleeding dom ->
    on_ladder dom s -> on_ladder dom (zoomOut dom s).
Proof.
  intros dom s Hdom (e & q & m & He & Hq & Hm & Hlow & Hbelow & Hclamp).
  destruct (getMaxScale_at_least_one dom Hdom) as (m' & Hm' & Hone).
  assert (m' = m) by congruence. subst m'.
  destruct (gtb (scale s) (Fin (1 # 2))) eqn:Hgt.
  - destruct (zoomOut_acts dom s Hgt) as [Hs Hexp].
    rewrite Hq in Hgt. cbn in Hgt. apply Qlt_bool_iff in Hgt.
    assert (He1 : (-1 <= e)%Z).
    { destruct (Z.eq_dec e (-2)) as [-> | Hne]; [| lia].
      exfalso. revert Hclamp Hgt.
      change (scaleRadix ^ (-2)) with (4 # 9). qminmax; lra. }
    pose proof (radix_power_grows (e - 1)) as Hgrow.
    eexists (e - 1)%Z, _, m.
    split; [now rewrite Hexp, He |].
    split; [rewrite Hs, Hq, He; cbn; reflexivity |].
    split; [exact Hm |]. split; [lia |].
    split; [lra |].
    revert Hbelow Hgrow. generalize (scaleRadix ^ (e - 1)).
    intros p Hbelow Hgrow. qminmax; lra.
  - rewrite (zoomOut_idle dom s Hgt). now exists e, q, m.
Qed.

Lemma step_on_ladder :
  forall dom props a s,
    viewport_exceeds_bleeding dom ->
    leaves_ladder a = false ->
    on_ladder dom s -> on_ladder dom (step dom props a s).
Proof.
  intros dom props a s Hdom Ha Hs.
  destruct a as [ev|ev|ev| | |key| | | | | | | | | ];
    try discriminate Ha; cbn [step].
  - apply (untouched_on_ladder dom s); trivial.
    unfold handlePreviewMousedown.
    destruct (negb (button ev =? 0)%Z); through_writes_scale; split; reflexivity.
  - apply (untouched_on_ladder dom s); trivial.
    destruct (listening s); [| split; reflexivity].
    unfold handleMouseMove. through_writes_scale. split; reflexivity.
  - apply (untouched_on_ladder dom s); trivial.
    destruct (listening s); [| split; reflexivity].
    unfold handleMouseUp. through_writes_scale. split; reflexivity.
  - apply (untouched_on_ladder dom s); trivial.
    unfold handleFrame.
    destruct (frameRequested s); through_writes_scale; split; reflexivity.
  - destruct (mergedShow props s); [| exact Hs].
    unfold handleKeydown.
    destruct (key =? " ")%string.
    { exact Hs. }
    destruct (key =? "ArrowLeft")%string.
    { apply (untouched_on_ladder dom s); trivial. apply emit_if_scale. }
    destruct (key =? "ArrowRight")%string.
    { apply (untouched_on_ladder dom s); trivial. apply emit_if_scale. }
    destruct (key =? "ArrowUp")%string.
    { apply zoomIn_on_ladder; [exact Hdom | exact Hs]. }
    destruct (key =? "ArrowDown")%string.
    { apply zoomOut_on_ladder; [exact Hdom | exact Hs]. }
    destruct (key =? "Escape")%string; [| exact Hs].
    apply (untouched_on_ladder dom s); trivial. apply close_scale.
  - now apply zoomIn_on_ladder.
  - now apply zoomOut_on_ladder.
  - apply (untouched_on_ladder dom s); trivial.
    unfold rotateCounterclockwise. through_writes_scale. split; reflexivity.
  - apply (untouched_on_ladder dom s); trivial.
    unfold rotateClockwise. through_writes_scale. split; reflexivity.
  - apply reset_on_ladder; trivial; unfold handleSwitchPrev, resetScale;
      through_writes_scale; reflexivity.
  - apply reset_on_ladder; trivial; unfold handleSwitchNext, resetScale;
      through_writes_scale; reflexivity.
  - apply (untouched_on_ladder dom s); trivial. apply close_scale.
  - apply reset_on_ladder; trivial; reflexivity.
Qed.

Lemma on_ladder_bounds :
  forall dom s,
    viewport_exceeds_bleeding dom ->
    on_ladder dom s ->
    exists q m : Q,
      scale s = Fin q /\ getMaxScale dom = Fin m /\ (1 # 2) <= q <= m.
Proof.
  intros dom s Hdom (e & q & m & He & Hq & Hm & Hlow & Hbelow & Hclamp).
  destruct (getMaxScale_at_least_one dom Hdom) as (m' & Hm' & Hone).
  assert (m' = m) by congruence. subst m'.
  exists q, m. split; [exact Hq |]. split; [exact Hm |].
  revert Hclamp. qminmax; lra.
Qed.

(** The switch buttons and the after-leave hook put the state at the
    foot of every ladder. *)
Lemma step_resets :
  forall dom props a s,
    resets_without_redraw a = true ->
    scale (step dom props a s) = Fin 1
    /\ scaleExp (step dom props a s) = Fin 0%Z.
Proof.
  intros dom props a s Ha.
  destruct a; try discriminate Ha; open_step dom props s; fields;
    split; reflexivity.
Qed.

Lemma session_cons :
  forall props ad l ds,
    session props (ad :: l) ds = session props l (session_step props ds ad).
Proof.
  reflexivity.
Qed.

(** A session that stays on one image is a run. *)
Lemma session_on_one_image :
  forall props dom l s,
    session props (on_one_image dom l) (dom, s) = (dom, run dom props l s).
Proof.
  intros props dom l. induction l as [|a l IH]; intros s; [reflexivity |].
  change (on_one_image dom (a :: l)) with ((a, dom) :: on_one_image dom l).
  rewrite session_cons, run_cons. apply IH.
Qed.

Lemma replaced_at_resets_on_one_image :
  forall dom l,
    viewport_exceeds_bleeding dom ->
    replaced_at_resets dom (on_one_image dom l).
Proof.
  intros dom l Hdom. induction l as [|a l IH]; [exact I |].
  cbn. split; [reflexivity |]. split; [exact Hdom | exact IH].
Qed.

Lemma session_on_ladder :
  forall props l dom s,
    viewport_exceeds_bleeding dom ->
    on_ladder dom s ->
    replaced_at_resets dom l ->
    forallb (fun ad => follows_ladder (fst ad)) l = true ->
    viewport_exceeds_bleeding (fst (session props l (dom, s)))
    /\ on_ladder (fst (session props l (dom, s)))
         (snd (session props l (dom, s))).
Proof.
  intros props l. induction l as [|[a d] l IH]; intros dom s Hdom Hs Hl Hall.
  - split; assumption.
  - cbn [replaced_at_resets fst snd] in Hl.
    destruct Hl as (Hsame & Hd & Hl).
    cbn [forallb fst] in Hall. apply andb_true_iff in Hall.
    destruct Hall as [Ha Hall].
    unfold follows_ladder in Ha. apply andb_true_iff in Ha.
    destruct Ha as [Ha _]. apply negb_true_iff in Ha.
    rewrite session_cons. unfold session_step. cbn [fst snd].
    apply IH; trivial.
    destruct (resets_without_redraw a) eqn:Hreset.
    + destruct (step_resets dom props a s Hreset) as [Hone Hzero].
      now apply reset_on_ladder.
    + rewrite (Hsame eq_refl). now apply step_on_ladder.
Qed.

(** X9.  The ladder is kept through a session over several images.  From a
    state on the ladder of the document shown, in viewports wider and
    higher than [BLEEDING], every session of actions other than the double
    click, resize-to-original and the ArrowLeft and ArrowRight keys, in
    which the document changes only behind a switch button or the
    after-leave hook, ends on the ladder of the document it ends with: the
    exponent is an integer from -2 on and the scale is [1.5 ^ scaleExp]
    brought into [0.5, maxScale] of that document; in particular
    [0.5 <= scale <= maxScale].  A run of such actions on one document is
    such a session. *)
Theorem ladder_is_kept :
  forall (props : Props) (dom : Dom) (s : State) (l : list (Action * Dom)),
    viewport_exceeds_bleeding dom ->
    on_ladder dom s ->
    replaced_at_resets dom l ->
    forallb (fun ad => follows_ladder (fst ad)) l = true ->
    let dom' := fst (session props l (dom, s)) in
    let s' := snd (session props l (dom, s)) in
    on_ladder dom' s'
    /\ (exists q m : Q,
          scale s' = Fin q /\ getMaxScale dom' = Fin m /\ (1 # 2) <= q <= m)
    /\ (forall acts : list Action,
          forallb follows_ladder acts = true ->
          on_ladder dom (run dom props acts s)).
Proof.
  intros props dom s l Hdom Hs Hl Hall dom' s'.
  destruct (session_on_ladder props l dom s Hdom Hs Hl Hall) as [Hdom' Hs'].
  split; [exact Hs' |]. split; [now apply on_ladder_bounds |].
  intros acts Hacts.
  assert (Hone : forallb (fun ad => follows_ladder (fst ad))
                   (on_one_image dom acts) = true).
  { clear - Hacts. induction acts as [|a acts IH]; [reflexivity |].
    cbn in Hacts |- *. apply andb_true_iff in Hacts.
    destruct Hacts as [Ha Hacts]. rewrite Ha. now apply IH. }
  pose proof (proj2 (session_on_ladder props (on_one_image dom acts) dom s
                       Hdom Hs (replaced_at_resets_on_one_image dom acts Hdom)
                       Hone)) as H.
  rewrite session_on_one_image in H. exact H.
Qed.

(** On the large image [maxScale] is 25/6 and three steps up end at 27/8;
    the switch button resets, and on the small image, whose [maxScale] is
    3, three steps up end at 3. *)
Lemma ladder_is_kept_witness :
  viewport_exceeds_bleeding spanning_dom
  /\ on_ladder spanning_dom opened
  /\ replaced_at_resets spanning_dom two_image_session
  /\ forallb (fun ad => follows_ladder (fst ad)) two_image_session = true
  /\ on_ladder small_image_dom
       (snd (session all_hooks two_image_session (spanning_dom, opened))).
Proof.
  assert (Hdom : viewport_exceeds_bleeding spanning_dom)
    by (split; reflexivity).
  assert (Hsmall : viewport_exceeds_bleeding small_image_dom)
    by (split; reflexivity).
  assert (Hs : on_ladder spanning_dom opened)
    by (apply reset_on_ladder; trivial).
  assert (Hl : replaced_at_resets spanning_dom two_image_session).
  { unfold two_image_session. cbn [replaced_at_resets fst snd].
    repeat split; trivial; try reflexivity; intros H; discriminate H. }
  split; [exact Hdom |]. split; [exact Hs |]. split; [exact Hl |].
  split; [reflexivity |].
  exact (proj1 (ladder_is_kept all_hooks spanning_dom opened
                  two_image_session Hdom Hs Hl eq_refl)).
Defined.

(** X8.  On the ladder ([on_ladder]: integer exponent from -2 on, scale
    [1.5 ^ scaleExp] brought into [0.5, maxScale], the step below still
    under [maxScale]) in a viewport wider and higher than [BLEEDING], the
    two zoom steps undo each other on scale and exponent: a [zoomIn] that
    acts followed by [zoomOut], and a [zoomOut] that acts followed by
    [zoomIn], both return to the scale and exponent they started from,
    also when the step in between was cut at [maxScale] or at 0.5. *)
Theorem zoom_steps_undo_each_other :
  forall (dom : Dom) (s : State),
    viewport_exceeds_bleeding dom ->
    on_ladder dom s ->
    (ltb (scale s) (getMaxScale dom) = true ->
     same (scale (zoomOut dom (zoomIn dom s))) (scale s)
     /\ scaleExp (zoomOut dom (zoomIn dom s)) = scaleExp s)
    /\ (gtb (scale s) (Fin (1 # 2)) = true ->
        same (scale (zoomIn dom (zoomOut dom s))) (scale s)
        /\ scaleExp (zoomIn dom (zoomOut dom s)) = scaleExp s).
Proof.
  intros dom s Hdom (e & q & m & He & Hq & Hm & Hlow & Hbelow & Hclamp).
  destruct (getMaxScale_at_least_one dom Hdom) as (m' & Hm' & Hone).
  assert (m' = m) by congruence. subst m'.
  split.
  - intros Hlt.
    destruct (zoomIn_acts dom s Hlt) as [Hs Hexp].
    rewrite Hq, Hm in Hlt. cbn in Hlt. apply Qlt_bool_iff in Hlt.
    pose proof (radix_power_at_least_half e Hlow) as Hup.
    rewrite Hm, He in Hs. cbn in Hs. rewrite He in Hexp. cbn in Hexp.
    assert (Hgt : gtb (scale (zoomIn dom s)) (Fin (1 # 2)) = true).
    { rewrite Hs. cbn. apply Qlt_bool_iff.
      assert (Hstrict : (1 # 2) < scaleRadix ^ (e + 1)).
      { apply Qlt_le_trans with (scaleRadix ^ (-1)); [reflexivity |].
        apply Qpower_le_compat_l; [lia | discriminate]. }
      revert Hstrict. qminmax; lra. }
    destruct (zoomOut_acts dom (zoomIn dom s) Hgt) as [Hs' Hexp'].
    rewrite Hs', Hexp', Hs, Hexp, Hq, He. cbn.
    replace (e + 1 - 1)%Z with e by lia.
    split; [| reflexivity].
    revert Hclamp Hlt. generalize (scaleRadix ^ e) (scaleRadix ^ (e + 1)).
    intros p p' Hclamp Hlt. qminmax; lra.
  - intros Hgt.
    destruct (zoomOut_acts dom s Hgt) as [Hs Hexp].
    rewrite Hq in Hgt. cbn in Hgt. apply Qlt_bool_iff in Hgt.
    rewrite Hq, He in Hs. cbn in Hs. rewrite He in Hexp. cbn in Hexp.
    assert (Hlt : ltb (scale (zoomOut dom s)) (getMaxScale dom) = true).
    { rewrite Hs, Hm. cbn. apply Qlt_bool_iff.
      revert Hbelow. generalize (scaleRadix ^ (e - 1)). intros p Hbelow.
      qminmax; lra. }
    destruct (zoomIn_acts dom (zoomOut dom s) Hlt) as [Hs' Hexp'].
    rewrite Hs', Hexp', Hexp, Hm, Hq, He. cbn.
    replace (e - 1 + 1)%Z with e by lia.
    split; [| reflexivity].
    revert Hclamp Hgt. generalize (scaleRadix ^ e).
    intros p Hclamp Hgt. qminmax; lra.
Qed.

Lemma zoom_steps_undo_each_other_witness :
  viewport_exceeds_bleeding spanning_dom
  /\ on_ladder spanning_dom opened
  /\ ltb (scale opened) (getMaxScale spanning_dom) = true
  /\ scaleExp (zoomOut spanning_dom (zoomIn spanning_dom opened))
     = scaleExp opened.
Proof.
  assert (Hdom : viewport_exceeds_bleeding spanning_dom)
    by (split; reflexivity).
  assert (Hs : on_ladder spanning_dom opened)
    by (apply reset_on_ladder; trivial).
  split; [exact Hdom |]. split; [exact Hs |]. split; [reflexivity |].
  now apply (zoom_steps_undo_each_other spanning_dom opened Hdom Hs).
Defined.

(** ** Resizing to the original size *)




(** ** The double click *)

Lemma same_sym : forall a b : number, same a b -> same b a.
Proof.
  intros [x | | |] [y | | |]; cbn; trivial. intros H. now symmetry.
Qed.

Lemma eqb_same :
  forall (a : number) (q : Q), eqb a (Fin q) = true <-> same a (Fin q).
Proof.
  intros [x | | |] q; cbn; try (split; [discriminate | tauto]).
  apply Qeq_bool_iff.
Qed.

Lemma dblclick_effect :
  forall dom s,
    let t := handlePreviewDblclick dom s in
    scale t
    = (if eqb (scale s) (getOrignalImageSizeScale dom)
       then Fin 1 else getOrignalImageSizeScale dom)
    /\ scaleExp t = scaleExp s
    /\ offsetX t = offsetX s /\ offsetY t = offsetY s
    /\ rotate t = rotate s.
Proof.
  intros dom s. cbv zeta. unfold handlePreviewDblclick.
  rewrite derivePreviewStyle_writes. repeat split; reflexivity.
Qed.

(** X12.  In a viewport wider and higher than [BLEEDING], the double click
    toggles between the original size [q] and 1 and touches neither
    exponent, offset nor rotation: at [q] it goes to 1, at any other scale
    to [q]; two double clicks from 1 or from [q] return to the scale they
    started from. *)
Theorem dblclick_toggles_original_size :
  forall (dom : Dom) (s : State),
    viewport_exceeds_bleeding dom ->
    exists q : Q,
      getOrignalImageSizeScale dom = Fin q
      /\ 1 <= q
      /\ (same (scale s) (Fin q) ->
          scale (handlePreviewDblclick dom s) = Fin 1)
      /\ (~ same (scale s) (Fin q) ->
          scale (handlePreviewDblclick dom s) = Fin q)
      /\ (same (scale s) (Fin 1) \/ same (scale s) (Fin q) ->
          same (scale (handlePreviewDblclick dom
                         (handlePreviewDblclick dom s)))
               (scale s))
      /\ scaleExp (handlePreviewDblclick dom s) = scaleExp s
      /\ offsetX (handlePreviewDblclick dom s) = offsetX s
      /\ offsetY (handlePreviewDblclick dom s) = offsetY s
      /\ rotate (handlePreviewDblclick dom s) = rotate s.
Proof.
  intros dom s Hdom.
  destruct (getOrignalImageSizeScale_at_least_one dom Hdom)
    as (q & Ho & Hone).
  exists q. split; [exact Ho |]. split; [exact Hone |].
  destruct (dblclick_effect dom s) as (Hs & He & HX & HY & Hr).
  rewrite Ho in Hs.
  assert (Hon : same (scale s) (Fin q) ->
                scale (handlePreviewDblclick dom s) = Fin 1).
  { intros H. apply eqb_same in H. now rewrite Hs, H. }
  assert (Hoff : ~ same (scale s) (Fin q) ->
                 scale (handlePreviewDblclick dom s) = Fin q).
  { intros H. rewrite Hs.
    destruct (eqb (scale s) (Fin q)) eqn:E; [| reflexivity].
    apply eqb_same in E. contradiction. }
  split; [exact Hon |]. split; [exact Hoff |].
  split; [| now repeat split].
  destruct (dblclick_effect dom (handlePreviewDblclick dom s))
    as (Hs' & _). rewrite Ho in Hs'. rewrite Hs'.
  intros [H1 | Hq].
  - destruct (eqb (scale s) (Fin q)) eqn:E.
    + (* the original size is 1 *)
      rewrite Hs. cbn [eqb].
      apply eqb_same in E.
      assert (Hq1 : q == 1).
      { destruct (scale s) as [x | | |]; try contradiction.
        cbn in H1, E. now rewrite <- E, H1. }
      assert (E1 : Qeq_bool 1 q = true)
        by (apply Qeq_bool_iff; now symmetry).
      rewrite E1. now apply same_sym.
    + rewrite Hs. cbn [eqb].
      assert (E1 : Qeq_bool q q = true) by now apply Qeq_bool_iff.
      rewrite E1. now apply same_sym.
  - pose proof Hq as E. apply eqb_same in E. rewrite Hs, E. cbn [eqb].
    destruct (Qeq_bool 1 q) eqn:E1.
    + apply Qeq_bool_iff in E1.
      destruct (scale s) as [x | | |]; try contradiction.
      cbn in Hq |- *. now rewrite Hq, E1.
    + now apply same_sym.
Qed.

Lemma dblclick_toggles_original_size_witness :
  viewport_exceeds_bleeding spanning_dom
  /\ same (scale opened) (Fin 1)
  /\ same (scale (handlePreviewDblclick spanning_dom
                    (handlePreviewDblclick spanning_dom opened)))
          (scale opened).
Proof.
  assert (Hdom : viewport_exceeds_bleeding spanning_dom)
    by (split; reflexivity).
  assert (H1 : same (scale opened) (Fin 1)) by reflexivity.
  split; [exact Hdom |]. split; [exact H1 |].
  destruct (dblclick_toggles_original_size spanning_dom opened Hdom)
    as (q & _ & _ & _ & _ & Htwice & _).
  apply Htwice. now left.
Defined.

(** ** Scales that are not finite *)

(** X16.  Scales that are not finite: at a NaN scale [zoomIn] and [zoomOut]
    do nothing; at an infinite scale [zoomIn] does nothing and [zoomOut]
    (at an integer exponent) leaves NaN; and an infinite scale is what the
    double click sets from a finite one in a window exactly [BLEEDING]
    high (and wider than [BLEEDING]) showing an image of positive natural
    height. *)
Theorem ladder_is_stuck_at_nan :
  forall (dom : Dom) (s : State),
    (scale s = NaN -> zoomIn dom s = s /\ zoomOut dom s = s)
    /\ (scale s = PosInf ->
        zoomIn dom s = s
        /\ forall e : Z, scaleExp s = Fin e -> scale (zoomOut dom s) = NaN)
    /\ (forall (preview : PreviewEl) (q : Q),
          previewRef dom = Some preview ->
          innerHeight dom == BLEEDING ->
          BLEEDING < innerWidth dom ->
          0 < naturalHeight preview ->
          scale s = Fin q ->
          scale (handlePreviewDblclick dom s) = PosInf).
Proof.
  intros dom s. split; [| split].
  - intros Hs. split.
    + apply zoomIn_idle. rewrite Hs. reflexivity.
    + apply zoomOut_idle. rewrite Hs. reflexivity.
  - intros Hs. split.
    + apply zoomIn_idle. rewrite Hs. now destruct (getMaxScale dom).
    + intros e He.
      assert (Hgt : gtb (scale s) (Fin (1 # 2)) = true)
        by (rewrite Hs; reflexivity).
      destruct (zoomOut_acts dom s Hgt) as [-> _]. rewrite Hs, He.
      reflexivity.
  - intros preview q mounted HH HW Hnh Hs.
    destruct (dblclick_effect dom s) as (Hd & _). rewrite Hd.
    assert (Ho : getOrignalImageSizeScale dom = PosInf).
    { unfold getOrignalImageSizeScale. rewrite mounted.
      rewrite (ratio_over_zero _ _ HH).
      assert (HneW : ~ innerWidth dom == BLEEDING)
        by (intro E; rewrite E in HW; lra).
      rewrite (ratio_finite _ _ HneW).
      unfold signed_inf.
      assert (Hp : Qlt_bool 0 (naturalHeight preview) = true)
        by now apply Qlt_bool_iff.
      rewrite Hp. reflexivity. }
    rewrite Ho, Hs. reflexivity.
Qed.

Lemma ladder_is_stuck_at_nan_witness :
  scale (set_scale opened NaN) = NaN
  /\ zoomIn bleeding_dom (set_scale opened NaN) = set_scale opened NaN
  /\ scale (handlePreviewDblclick bleeding_dom opened) = PosInf
  /\ scale (zoomOut bleeding_dom (handlePreviewDblclick bleeding_dom opened))
     = NaN.
Proof.
  split; [reflexivity |].
  split.
  - exact (proj1 (proj1 (ladder_is_stuck_at_nan bleeding_dom
                           (set_scale opened NaN)) eq_refl)).
  - assert (Hinf : scale (handlePreviewDblclick bleeding_dom opened) = PosInf).
    { apply (proj2 (proj2 (ladder_is_stuck_at_nan bleeding_dom opened))
               (still_image 100 100 (box 450 0 100 100)) 1);
        reflexivity. }
    split; [exact Hinf |].
    now apply (proj2 (proj1 (proj2 (ladder_is_stuck_at_nan bleeding_dom
                               (handlePreviewDblclick bleeding_dom opened)))
                        Hinf) 0%Z).
Defined.

(** ** Zooming on the ladder *)

(** X18.  On the ladder a zoom step never goes the wrong way: a [zoomIn]
    that acts raises the scale and a [zoomOut] that acts lowers it. *)
Theorem zoom_steps_are_monotone_on_ladder :
  forall (dom : Dom) (s : State) (q : Q),
    viewport_exceeds_bleeding dom ->
    on_ladder dom s ->
    scale s = Fin q ->
    (ltb (scale s) (getMaxScale dom) = true ->
     exists up : Q, scale (zoomIn dom s) = Fin up /\ q < up)
    /\ (gtb (scale s) (Fin (1 # 2)) = true ->
        exists down : Q, scale (zoomOut dom s) = Fin down /\ down < q).
Proof.
  intros dom s q0 Hdom (e & q & m & He & Hq & Hm & Hlow & Hbelow & Hclamp) Hs.
  assert (q0 = q) by congruence. subst q0.
  destruct (getMaxScale_at_least_one dom Hdom) as (m' & Hm' & Hone).
  assert (m' = m) by congruence. subst m'.
  split.
  - intros Hlt.
    destruct (zoomIn_acts dom s Hlt) as [Hs' _].
    rewrite Hq, Hm in Hlt. cbn in Hlt. apply Qlt_bool_iff in Hlt.
    rewrite Hs', Hm, He. cbn. eexists. split; [reflexivity |].
    pose proof (radix_power_at_least_half e Hlow) as Hup.
    pose proof (radix_power_grows (e + 1)) as Hgrow.
    replace (e + 1 - 1)%Z with e in Hgrow by lia.
    assert (Hstrict : (1 # 2) < scaleRadix ^ (e + 1)).
    { apply Qlt_le_trans with (scaleRadix ^ (-1)); [reflexivity |].
      apply Qpower_le_compat_l; [lia | discriminate]. }
    revert Hclamp Hlt Hgrow Hstrict.
    generalize (scaleRadix ^ e) (scaleRadix ^ (e + 1)).
    intros p p' Hclamp Hlt Hgrow Hstrict. qminmax; lra.
  - intros Hgt.
    destruct (zoomOut_acts dom s Hgt) as [Hs' _].
    rewrite Hq in Hgt. cbn in Hgt. apply Qlt_bool_iff in Hgt.
    rewrite Hs', Hq, He. cbn. eexists. split; [reflexivity |].
    pose proof (radix_power_grows e) as Hgrow.
    revert Hclamp Hgt Hgrow Hbelow.
    generalize (scaleRadix ^ e) (scaleRadix ^ (e - 1)).
    intros p p' Hclamp Hgt Hgrow Hbelow. qminmax; lra.
Qed.

Lemma zoom_steps_are_monotone_on_ladder_witness :
  viewport_exceeds_bleeding spanning_dom
  /\ on_ladder spanning_dom opened
  /\ scale opened = Fin 1
  /\ ltb (scale opened) (getMaxScale spanning_dom) = true
  /\ exists up : Q, scale (zoomIn spanning_dom opened) = Fin up /\ 1 < up.
Proof.
  assert (Hdom : viewport_exceeds_bleeding spanning_dom)
    by (split; reflexivity).
  assert (Hs : on_ladder spanning_dom opened)
    by (apply reset_on_ladder; trivial).
  split; [exact Hdom |]. split; [exact Hs |]. split; [reflexivity |].
  split; [reflexivity |].
  now apply (zoom_steps_are_monotone_on_ladder spanning_dom opened 1 Hdom Hs
               eq_refl).
Defined.

(** ** The side the clamp allows *)

Lemma clamp_axis_heading :
  forall viewport lo hi size target,
    viewport < size ->
    clamp_axis viewport lo hi size true target <= (size - viewport) / 2
    /\ - ((size - viewport) / 2)
       <= clamp_axis viewport lo hi size false target.
Proof.
  intros viewport lo hi size target Hbig.
  unfold clamp_axis.
  destruct (Qle_bool size viewport) eqn:Hfit; qprop; [lra |].
  destruct (Qlt_bool 0 lo); [split; qlra |].
  destruct (Qlt_bool hi viewport); [split; qlra |].
  split; qminmax; qlra.
Qed.

(** X19.  For a box larger than the viewport on an axis the clamp never
    passes the limit on the side the strategy heads to: with
    [horizontalRight] the result is at most [(boxWidth - viewportWidth) / 2],
    with [horizontalLeft] or no strategy at least the opposite; the same
    with [verticalBottom] on the Y axis. *)
Theorem clamp_respects_limit_on_heading_side :
  forall (dom : Dom) (preview : PreviewEl)
         (moveStrategy : option MoveStrategy) (s : State),
    previewRef dom = Some preview ->
    let pbox := getBoundingClientRect preview (cssText s) in
    let next := getDerivedOffset dom moveStrategy s in
    let heading_right :=
      is_horizontalRight (option_map moveHorizontalDirection moveStrategy) in
    let heading_bottom :=
      is_verticalBottom (option_map moveVerticalDirection moveStrategy) in
    (innerWidth dom < width pbox -> heading_right = true ->
     nextOffsetX next <= (width pbox - innerWidth dom) / 2)
    /\ (innerWidth dom < width pbox -> heading_right = false ->
        - ((width pbox - innerWidth dom) / 2) <= nextOffsetX next)
    /\ (innerHeight dom < height pbox -> heading_bottom = true ->
        nextOffsetY next <= (height pbox - innerHeight dom) / 2)
    /\ (innerHeight dom < height pbox -> heading_bottom = false ->
        - ((height pbox - innerHeight dom) / 2) <= nextOffsetY next).
Proof.
  intros dom preview moveStrategy s mounted pbox next heading_right
    heading_bottom.
  destruct (getDerivedOffset_axes dom preview moveStrategy s mounted)
    as [HX HY].
  fold pbox in HX, HY. fold next in HX, HY.
  fold heading_right in HX. fold heading_bottom in HY.
  rewrite HX, HY.
  split; [| split; [| split]]; intros Hbig Hdir; rewrite Hdir.
  - now apply clamp_axis_heading.
  - now apply clamp_axis_heading.
  - now apply clamp_axis_heading.
  - now apply clamp_axis_heading.
Qed.

Lemma clamp_respects_limit_on_heading_side_witness :
  previewRef spanning_dom
  = Some (still_image 2000 1600 (box (-150) (-100) 1200 1000))
  /\ 1000 < 1200
  /\ - ((1200 - 1000) / 2)
     <= nextOffsetX (getDerivedOffset spanning_dom None
                       (set_startOffset opened (-500) 0)).
Proof.
  assert (Hbig : 1000 < 1200) by reflexivity.
  split; [reflexivity |]. split; [exact Hbig |].
  exact (proj1 (proj2 (clamp_respects_limit_on_heading_side spanning_dom _
                         None (set_startOffset opened (-500) 0) eq_refl))
           Hbig eq_refl).
Defined.

(** ** A click *)

(** X20.  A click (primary mousedown and mouseup at the same point) with a
    mounted preview: the mousedown draws the current offset with the
    grabbing cursor and the transition off; for a box measured then that is
    the centred one moved by that offset, the mouseup commits 0 on an axis
    where the box fits and otherwise the offset brought into the limits, so
    an offset within the limits is left as it is. *)
Theorem click_reclamps_offset :
  forall (dom : Dom) (preview : PreviewEl) (e : MouseEvent) (s : State),
    previewRef dom = Some preview ->
    button e = 0%Z ->
    let pressed := handlePreviewMousedown dom e s in
    let pbox := getBoundingClientRect preview (cssText pressed) in
    box_consistent pbox ->
    centred_at dom (offsetX s) (offsetY s) pbox ->
    let released := handleMouseUp dom e pressed in
    cssText pressed
    = Some {| translateX := offsetX s;
              translateY := offsetY s;
              rotateDeg := rotate s;
              scaleFactor := scale s;
              cursor := grabbing;
              transitionNone := true |}
    /\ offsetX released
       == (if Qle_bool (width pbox) (innerWidth dom) then 0
           else clamp_to ((width pbox - innerWidth dom) / 2) (offsetX s))
    /\ offsetY released
       == (if Qle_bool (height pbox) (innerHeight dom) then 0
           else clamp_to ((height pbox - innerHeight dom) / 2) (offsetY s))
    /\ (within_limits (innerWidth dom) (width pbox) (offsetX s) ->
        innerWidth dom < width pbox ->
        offsetX released == offsetX s)
    /\ (within_limits (innerHeight dom) (height pbox) (offsetY s) ->
        innerHeight dom < height pbox ->
        offsetY released == offsetY s).
Proof.
  intros dom preview e s mounted He pressed pbox Hbox [Hleft Htop] released.
  assert (Hpressed :
            cssText pressed
            = Some {| translateX := offsetX s;
                      translateY := offsetY s;
                      rotateDeg := rotate s;
                      scaleFactor := scale s;
                      cursor := grabbing;
                      transitionNone := true |}
            /\ startOffsetX pressed = offsetX s
            /\ startOffsetY pressed = offsetY s
            /\ mouseDownClientX pressed = clientX e
            /\ mouseDownClientY pressed = clientY e).
  { unfold pressed, handlePreviewMousedown. rewrite He. cbn [Z.eqb negb].
    rewrite derivePreviewStyle_writes. unfold derived_style.
    rewrite mounted. repeat split; reflexivity. }
  destruct Hpressed as (Hcss & Hsx & Hsy & Hmx & Hmy).
  assert (Hcentred :
            centred_at dom
              (startOffsetX pressed - (mouseDownClientX pressed - clientX e))
              (startOffsetY pressed - (mouseDownClientY pressed - clientY e))
              pbox).
  { rewrite Hsx, Hsy, Hmx, Hmy. split.
    - rewrite Hleft. ring.
    - rewrite Htop. ring. }
  destruct (handleMouseUp_clamps dom preview e pressed mounted Hbox Hcentred)
    as (HX & HY & _).
  fold released in HX, HY. fold pbox in HX, HY.
  rewrite Hsx, Hmx in HX. rewrite Hsy, Hmy in HY.
  assert (HX' : offsetX released
                == (if Qle_bool (width pbox) (innerWidth dom) then 0
                    else clamp_to ((width pbox - innerWidth dom) / 2)
                           (offsetX s))).
  { rewrite HX. destruct (Qle_bool (width pbox) (innerWidth dom));
      [reflexivity |].
    unfold clamp_to. qminmax; qlra. }
  assert (HY' : offsetY released
                == (if Qle_bool (height pbox) (innerHeight dom) then 0
                    else clamp_to ((height pbox - innerHeight dom) / 2)
                           (offsetY s))).
  { rewrite HY. destruct (Qle_bool (height pbox) (innerHeight dom));
      [reflexivity |].
    unfold clamp_to. qminmax; qlra. }
  split; [exact Hcss |]. split; [exact HX' |]. split; [exact HY' |].
  split.
  - intros Hlim Hbig. specialize (Hlim Hbig). rewrite HX'.
    destruct (Qle_bool (width pbox) (innerWidth dom)) eqn:E; qprop;
      [lra |].
    unfold clamp_to. qminmax; qlra.
  - intros Hlim Hbig. specialize (Hlim Hbig). rewrite HY'.
    destruct (Qle_bool (height pbox) (innerHeight dom)) eqn:E; qprop;
      [lra |].
    unfold clamp_to. qminmax; qlra.
Qed.

Lemma click_reclamps_offset_witness :
  previewRef spanning_dom
  = Some (still_image 2000 1600 (box (-150) (-100) 1200 1000))
  /\ button (pointer_at 5 5) = 0%Z
  /\ box_consistent (box (-150) (-100) 1200 1000)
  /\ centred_at spanning_dom (-50) 0 (box (-150) (-100) 1200 1000)
  /\ offsetX
       (handleMouseUp spanning_dom (pointer_at 5 5)
          (handlePreviewMousedown spanning_dom (pointer_at 5 5)
             (set_offset opened (-50) 0)))
     == clamp_to ((1200 - 1000) / 2) (-50).
Proof.
  assert (Hbox : box_consistent (box (-150) (-100) 1200 1000))
    by (split; reflexivity).
  assert (Hcentred : centred_at spanning_dom (-50) 0
                       (box (-150) (-100) 1200 1000))
    by (split; reflexivity).
  split; [reflexivity |]. split; [reflexivity |].
  split; [exact Hbox |]. split; [exact Hcentred |].
  exact (proj1 (proj2 (click_reclamps_offset spanning_dom _ (pointer_at 5 5)
                         (set_offset opened (-50) 0) eq_refl eq_refl
                         Hbox Hcentred))).
Defined.
